(** * Chat front end: streaming, thinking timeline, session persistence

    A shallow embedding of the state-carrying parts of the chat front end:

    - [ChatEvents]    : lib/chatEvents.ts (data contracts, default step list)
    - [ChatProvider]  : providers/ChatProvider.tsx (the reducer)
    - [StreamSSE]     : hooks/useStreamSSE.ts (network and simulated sources)
    - [TypingAnimation] : hooks/useTypingAnimation.ts (incremental renderer)
    - [ChatService]   : lib/chatService.ts (titles, content hash, sessions)

    JavaScript strings are sequences of UTF-16 code units; they are modelled
    as lists of [N], so that [length] is the [.length] of the source and
    [btoa] can reject code units above 255 the way the browser does.
    [Date.now()], [Math.random()] and the network are inputs of the
    functions that read them. *)

From Stdlib Require Import String Ascii DecimalString.
From Stdlib Require Import List NArith ZArith QArith Bool Lia.
Import ListNotations.
Close Scope Q_scope.

Set Implicit Arguments.

(* ------------------------------------------------------------------ *)
(** ** JavaScript strings *)

Definition str : Type := list N.

Module Js.

(** A literal of the source, read as its code units. *)
Definition lit (s : string) : str :=
  map N_of_ascii (list_ascii_of_string s).

Fixpoint eqb (a b : str) : bool :=
  match a, b with
  | [], [] => true
  | x :: a', y :: b' => N.eqb x y && eqb a' b'
  | _, _ => false
  end.

(** [a || b] on strings: the empty string is falsy. *)
Definition orElse (a b : str) : str :=
  match a with
  | [] => b
  | _ :: _ => a
  end.

(** [a || b] where [a] may be [undefined]. *)
Definition optOrElse (a : option str) (b : str) : str :=
  match a with
  | Some s => orElse s b
  | None => b
  end.

(** [s.slice(0, n)] for a non-negative [n]. *)
Definition slice0 (n : nat) (s : str) : str := firstn n s.

(** [s.startsWith(p)]. *)
Fixpoint startsWith (p s : str) : bool :=
  match p, s with
  | [], _ => true
  | x :: p', y :: s' => N.eqb x y && startsWith p' s'
  | _ :: _, [] => false
  end.

(** [s.endsWith(p)], as a proposition. *)
Definition endsWith (p s : str) : Prop := exists pre, s = pre ++ p.

(** [s.split(sep)] for a one-code-unit separator: never the empty list. *)
Fixpoint split (sep : N) (s : str) : list str :=
  match s with
  | [] => [[]]
  | c :: r =>
      if N.eqb c sep then [] :: split sep r
      else match split sep r with
           | w :: ws => (c :: w) :: ws
           | [] => [[c]]
           end
  end.

(** [parts.join(sep)]. *)
Fixpoint join (sep : str) (parts : list str) : str :=
  match parts with
  | [] => []
  | [p] => p
  | p :: rest => p ++ sep ++ join sep rest
  end.

(** WhiteSpace and LineTerminator code units: what [trim] strips and what
    [\s] matches. *)
Definition isWhite (c : N) : bool :=
  ((9 <=? c) && (c <=? 13) || (c =? 32) || (c =? 160) || (c =? 5760)
   || (8192 <=? c) && (c <=? 8202) || (c =? 8232) || (c =? 8233)
   || (c =? 8239) || (c =? 8287) || (c =? 12288) || (c =? 65279))%N.

Fixpoint trimStart (s : str) : str :=
  match s with
  | c :: r => if isWhite c then trimStart r else s
  | [] => []
  end.

Definition trim (s : str) : str := rev (trimStart (rev (trimStart s))).

(** [s.replace(/\s+/g, ' ')]: every maximal run of white space becomes one
    space. [inRun] tells that the previous code unit was white space. *)
Fixpoint collapseFrom (inRun : bool) (s : str) : str :=
  match s with
  | [] => []
  | c :: r =>
      if isWhite c
      then (if inRun then collapseFrom true r else 32%N :: collapseFrom true r)
      else c :: collapseFrom false r
  end.

Definition collapseWhite (s : str) : str := collapseFrom false s.

End Js.

Notation "'js' s" := (Js.lit s%string) (at level 9, s at level 0, only parsing).

(* ------------------------------------------------------------------ *)
(** ** lib/chatEvents.ts *)

Module ChatEvents.

Inductive ThoughtStepStatus := pending | active | done | error.

Inductive ThoughtStepId :=
  understand | plan | retrieve | tool | compose | finalize.

Definition ThoughtStepId_eqb (a b : ThoughtStepId) : bool :=
  match a, b with
  | understand, understand | plan, plan | retrieve, retrieve
  | tool, tool | compose, compose | finalize, finalize => true
  | _, _ => false
  end.

Module ThoughtStep.
Record t := mk {
    id : ThoughtStepId;
    label : str;
    status : ThoughtStepStatus;
    startedAt : option Z;
    endedAt : option Z;
    toolName : option str;
    note : option str
  }.
End ThoughtStep.

Module ChatThinkingState.
Record t := mk {
    visible : bool;
    canCancel : bool;
    steps : list ThoughtStep.t;
    activeStep : option ThoughtStepId
  }.
End ChatThinkingState.

Module StreamChunk.
Record t := mk {
    id : str;
    delta : str;
    done : option bool;
    error : option str
  }.
End StreamChunk.

Module StreamingState.
Record t := mk {
    isStreaming : bool;
    messageId : option str;
    content : str;
    error : option str;
    done : bool
  }.
End StreamingState.

(** An entry of the default list: the optional fields are all absent. *)
Definition defaultStep (i : ThoughtStepId) (l : str) : ThoughtStep.t :=
  ThoughtStep.mk i l pending None None None None.

Definition DEFAULT_THINKING_STEPS : list ThoughtStep.t :=
  [ defaultStep understand (js "Understanding request");
    defaultStep plan (js "Planning response");
    defaultStep retrieve (js "Searching knowledge");
    defaultStep compose (js "Composing answer");
    defaultStep finalize (js "Finalizing") ].

End ChatEvents.

(* ------------------------------------------------------------------ *)
(** ** providers/ChatProvider.tsx *)

Module ChatProvider.
Import ChatEvents.

Inductive ChatAction :=
| SET_THINKING_VISIBLE (payload : bool)
| SET_CAN_CANCEL (payload : bool)
| START_STEP (id : ThoughtStepId) (label : option str) (toolName : option str)
| COMPLETE_STEP (payload : ThoughtStepId)
| FAIL_STEP (id : ThoughtStepId) (note : option str)
| RESET_THINKING
| START_STREAMING (messageId : str)
| APPEND_CHUNK (payload : StreamChunk.t)
| FINISH_STREAMING
| ERROR_STREAMING (payload : str)
| RESET_STREAMING.

Module ChatState.
Record t := mk {
    thinking : ChatThinkingState.t;
    streaming : StreamingState.t
  }.
End ChatState.

Definition initialState : ChatState.t :=
  ChatState.mk
    (ChatThinkingState.mk false false
       (map (fun step => step) DEFAULT_THINKING_STEPS) None)
    (StreamingState.mk false None [] None false).

(** [chunk.done || false]. *)
Definition doneOrFalse (d : option bool) : bool :=
  match d with
  | Some true => true
  | _ => false
  end.

(** The reducer; [now] is what [Date.now()] returns during the call. *)
Definition chatReducer (now : Z) (state : ChatState.t) (action : ChatAction)
  : ChatState.t :=
  let th := ChatState.thinking state in
  let sm := ChatState.streaming state in
  match action with
  | SET_THINKING_VISIBLE payload =>
      ChatState.mk
        (ChatThinkingState.mk payload
           (ChatThinkingState.canCancel th)
           (ChatThinkingState.steps th)
           (ChatThinkingState.activeStep th))
        sm
  | SET_CAN_CANCEL payload =>
      ChatState.mk
        (ChatThinkingState.mk (ChatThinkingState.visible th)
           payload
           (ChatThinkingState.steps th)
           (ChatThinkingState.activeStep th))
        sm
  | START_STEP id label toolName =>
      ChatState.mk
        (ChatThinkingState.mk (ChatThinkingState.visible th)
           (ChatThinkingState.canCancel th)
           (map (fun step =>
                   if ThoughtStepId_eqb (ThoughtStep.id step) id
                   then ThoughtStep.mk (ThoughtStep.id step)
                          (Js.optOrElse label (ThoughtStep.label step))
                          active
                          (Some now)
                          (ThoughtStep.endedAt step)
                          toolName
                          (ThoughtStep.note step)
                   else step)
                (ChatThinkingState.steps th))
           (Some id))
        sm
  | COMPLETE_STEP payload =>
      ChatState.mk
        (ChatThinkingState.mk (ChatThinkingState.visible th)
           (ChatThinkingState.canCancel th)
           (map (fun step =>
                   if ThoughtStepId_eqb (ThoughtStep.id step) payload
                   then ThoughtStep.mk (ThoughtStep.id step)
                          (ThoughtStep.label step)
                          done
                          (ThoughtStep.startedAt step)
                          (Some now)
                          (ThoughtStep.toolName step)
                          (ThoughtStep.note step)
                   else step)
                (ChatThinkingState.steps th))
           (ChatThinkingState.activeStep th))
        sm
  | FAIL_STEP id note =>
      ChatState.mk
        (ChatThinkingState.mk (ChatThinkingState.visible th)
           (ChatThinkingState.canCancel th)
           (map (fun step =>
                   if ThoughtStepId_eqb (ThoughtStep.id step) id
                   then ThoughtStep.mk (ThoughtStep.id step)
                          (ThoughtStep.label step)
                          error
                          (ThoughtStep.startedAt step)
                          (Some now)
                          (ThoughtStep.toolName step)
                          note
                   else step)
                (ChatThinkingState.steps th))
           (ChatThinkingState.activeStep th))
        sm
  | RESET_THINKING =>
      let ith := ChatState.thinking initialState in
      ChatState.mk
        (ChatThinkingState.mk (ChatThinkingState.visible ith)
           (ChatThinkingState.canCancel ith)
           (map (fun step => step) DEFAULT_THINKING_STEPS)
           (ChatThinkingState.activeStep ith))
        sm
  | START_STREAMING messageId =>
      ChatState.mk th
        (StreamingState.mk true (Some messageId) [] None false)
  | APPEND_CHUNK payload =>
      ChatState.mk th
        (StreamingState.mk (StreamingState.isStreaming sm)
           (StreamingState.messageId sm)
           (StreamingState.content sm ++ StreamChunk.delta payload)
           (StreamChunk.error payload)
           (doneOrFalse (StreamChunk.done payload)))
  | FINISH_STREAMING =>
      ChatState.mk th
        (StreamingState.mk false
           (StreamingState.messageId sm)
           (StreamingState.content sm)
           (StreamingState.error sm)
           true)
  | ERROR_STREAMING payload =>
      ChatState.mk th
        (StreamingState.mk false
           (StreamingState.messageId sm)
           (StreamingState.content sm)
           (Some payload)
           true)
  | RESET_STREAMING =>
      ChatState.mk th (ChatState.streaming initialState)
  end.

(** Dispatching a list of actions in call order, each with its clock
    reading. *)
Definition dispatchAll (state : ChatState.t) (acts : list (Z * ChatAction))
  : ChatState.t :=
  fold_left (fun s na => chatReducer (fst na) s (snd na)) acts state.

(** The action dispatchers of the context value that the claims use. *)
Definition startStreaming (messageId : str) : ChatAction :=
  START_STREAMING messageId.
Definition appendChunk (chunk : StreamChunk.t) : ChatAction :=
  APPEND_CHUNK chunk.
Definition errorStreaming (message : str) : ChatAction :=
  ERROR_STREAMING message.
Definition startStep (id : ThoughtStepId) (label : option str)
  (meta : option (option str)) : ChatAction :=
  START_STEP id label (match meta with Some t => t | None => None end).
Definition completeStep (id : ThoughtStepId) : ChatAction := COMPLETE_STEP id.

(** States reachable from [initialState]. *)
Inductive reachable : ChatState.t -> Prop :=
| reach_init : reachable initialState
| reach_step s now a : reachable s -> reachable (chatReducer now s a).

End ChatProvider.

(* ------------------------------------------------------------------ *)
(** ** hooks/useStreamSSE.ts *)

Module StreamSSE.
Import ChatEvents.

Module StreamState.
Record t := mk {
    isStreaming : bool;
    error : option str;
    chunks : list StreamChunk.t;
    content : str
  }.
End StreamState.

(** Calls made to the callbacks of [UseStreamSSEOptions], in call order. *)
Inductive Callback :=
| onChunk (chunk : StreamChunk.t)
| onError (error : str)
| onComplete.

(** The state both hooks start from, and that [startStream] and
    [startSimulation] install with [isStreaming] set. *)
Definition freshState (streaming : bool) : StreamState.t :=
  StreamState.mk streaming None [] [].

(** [setState(prev => ({ ...prev, isStreaming: b }))]. *)
Definition setIsStreaming (b : bool) (s : StreamState.t) : StreamState.t :=
  StreamState.mk b (StreamState.error s) (StreamState.chunks s)
    (StreamState.content s).

(** [setState(prev => ({ ...prev, isStreaming: false, error: m }))]. *)
Definition setFailed (m : str) (s : StreamState.t) : StreamState.t :=
  StreamState.mk false (Some m) (StreamState.chunks s) (StreamState.content s).

(** [setState(prev => ({ ...prev, chunks: [...prev.chunks, data],
    content: prev.content + data.delta }))]. *)
Definition pushChunk (data : StreamChunk.t) (s : StreamState.t)
  : StreamState.t :=
  StreamState.mk (StreamState.isStreaming s) (StreamState.error s)
    (StreamState.chunks s ++ [data])
    (StreamState.content s ++ StreamChunk.delta data).

(** *** The network-backed source *)

(** What a rejected promise carries: an [Error] (a [DOMException] is one)
    with its [name] and [message], or some other thrown value. *)
Inductive Thrown :=
| ErrorObject (name message : str)
| NotAnError.

(** What one [reader.read()] settles to; [ReadValue] carries the text the
    decoder returns for the bytes read. *)
Inductive ReadResult :=
| ReadDone
| ReadValue (text : str)
| ReadRejects (e : Thrown).

(** What the network does during one [startStream]: the fetch and then the
    reads, as far as they have settled. A list of reads that ends without
    [ReadDone] or a rejection leaves the next read pending. *)
Inductive Network :=
| FetchPending
| FetchRejects (e : Thrown)
| FetchResponse (ok : bool) (status : Z) (body : option (list ReadResult)).

(** How the body of the [try] block leaves the read loop. *)
Inductive Flow :=
| Returned (s : StreamState.t) (calls : list Callback)
| Broke (s : StreamState.t) (calls : list Callback)
| Threw (e : Thrown) (s : StreamState.t) (calls : list Callback)
| Awaiting (buffer : str) (s : StreamState.t) (calls : list Callback).

(** The hook after the events so far: settled, or still awaiting the
    network. *)
Inductive Outcome :=
| Settled (s : StreamState.t) (calls : list Callback)
| InFlight (s : StreamState.t) (calls : list Callback).

Definition isDone (data : StreamChunk.t) : bool :=
  match StreamChunk.done data with
  | Some true => true
  | _ => false
  end.

(** [`${status}`] for an integer status. *)
Definition showStatus (status : Z) : str :=
  js (NilZero.string_of_int (Z.to_int status)).

Section Network.

(** [JSON.parse] of a payload, read at the type the source declares for
    its result, [StreamChunk] (an object with string [id] and [delta]);
    [None] when it throws. A payload that parses to a value of another
    shape is outside this model. *)
Variable JSON_parse : str -> option StreamChunk.t.

(** The [for (const line of lines)] loop. The boolean tells that the loop
    was left by [return]. *)
Fixpoint processLines (lines : list str) (s : StreamState.t)
  (calls : list Callback) : bool * StreamState.t * list Callback :=
  match lines with
  | [] => (false, s, calls)
  | line :: rest =>
      if Js.eqb (Js.trim line) [] then processLines rest s calls
      else
        let handle (parsed : option StreamChunk.t) :=
          match parsed with
          | None => processLines rest s calls
          | Some data =>
              let s1 := pushChunk data s in
              let calls1 := calls ++ [onChunk data] in
              if isDone data
              then (true, setIsStreaming false s1, calls1 ++ [onComplete])
              else processLines rest s1 calls1
          end in
        if Js.startsWith (js "data: ") line then
          let jsonStr := skipn 6 line in
          if Js.eqb jsonStr (js "[DONE]")
          then (true, setIsStreaming false s, calls ++ [onComplete])
          else handle (JSON_parse jsonStr)
        else handle (JSON_parse line)
  end.

(** The [while (true)] loop over the reads that have settled. *)
Fixpoint readLoop (reads : list ReadResult) (buffer : str)
  (s : StreamState.t) (calls : list Callback) : Flow :=
  match reads with
  | [] => Awaiting buffer s calls
  | ReadRejects e :: _ => Threw e s calls
  | ReadDone :: _ => Broke s calls
  | ReadValue chunk :: rest =>
      let buffer1 := buffer ++ chunk in
      let lines := Js.split 10 buffer1 in
      let buffer2 := Js.orElse (last lines []) [] in
      match processLines (removelast lines) s calls with
      | (true, s1, calls1) => Returned s1 calls1
      | (false, s1, calls1) => readLoop rest buffer2 s1 calls1
      end
  end.

(** The [catch (error)] block. *)
Definition catchBlock (e : Thrown) (s : StreamState.t)
  (calls : list Callback) : StreamState.t * list Callback :=
  match e with
  | ErrorObject name message =>
      if Js.eqb name (js "AbortError")
      then (setIsStreaming false s, calls)
      else
        let errorMessage := Js.orElse message (js "Stream failed") in
        (setFailed errorMessage s, calls ++ [onError errorMessage])
  | NotAnError =>
      let errorMessage := js "Unknown stream error" in
      (setFailed errorMessage s, calls ++ [onError errorMessage])
  end.

Definition settle (r : StreamState.t * list Callback) : Outcome :=
  Settled (fst r) (snd r).

(** [startStream(endpoint, payload)] against the network [net]. The call
    replaces the hook state wholesale, so it does not depend on the state
    before; the abort of an earlier request that it begins with belongs to
    that earlier run. Only this one call is modelled: when an earlier call
    is still in flight, the [catch] block of that aborted call runs later
    and clears [isStreaming] on the state installed here, which this
    definition does not show. Callbacks are taken not to throw. *)
Definition startStream (net : Network) : Outcome :=
  let s0 := freshState true in
  match net with
  | FetchPending => InFlight s0 []
  | FetchRejects e => settle (catchBlock e s0 [])
  | FetchResponse ok status body =>
      if negb ok
      then settle (catchBlock
                     (ErrorObject (js "Error")
                        (js "HTTP error! status: " ++ showStatus status))
                     s0 [])
      else
        match body with
        | None =>
            settle (catchBlock
                      (ErrorObject (js "Error")
                         (js "Response body is not readable"))
                      s0 [])
        | Some reads =>
            match readLoop reads [] s0 [] with
            | Returned s calls => Settled s calls
            | Broke s calls =>
                Settled (setIsStreaming false s) (calls ++ [onComplete])
            | Threw e s calls => settle (catchBlock e s calls)
            | Awaiting _ s calls => InFlight s calls
            end
        end
  end.

(** The network [net] with its pending promise rejected by [e]. *)
Definition thenRejects (e : Thrown) (net : Network) : Network :=
  match net with
  | FetchPending => FetchRejects e
  | FetchResponse ok status (Some reads) =>
      FetchResponse ok status (Some (reads ++ [ReadRejects e]))
  | other => other
  end.

(** [cancelStream()] after a [startStream]: the controller is set, so the
    hook clears [isStreaming]; a request still in flight is aborted, and
    its pending promise rejects with an [AbortError] that the [catch] block
    of [startStream] receives. *)
Definition cancelStream (abortMessage : str) (o : Outcome) : Outcome :=
  match o with
  | InFlight s calls =>
      settle (catchBlock (ErrorObject (js "AbortError") abortMessage)
                (setIsStreaming false s) calls)
  | Settled s calls => Settled (setIsStreaming false s) calls
  end.

End Network.

(** *** The simulated source *)

Module Simulation.
  (** One [startSimulation] call: the hook state, the variables its closure
      [sendNextChunk] captures, the timer it has armed (with its delay),
      and the callbacks called so far. *)
Record t := mk {
    state : StreamState.t;
    words : list str;
    currentIndex : nat;
    messageId : str;
    chunkDelay : Z;
    timer : option Z;
    calls : list Callback
  }.
End Simulation.

Definition startSimulation (content messageId : str) (chunkDelay : Z)
  : Simulation.t :=
  Simulation.mk (freshState true) (Js.split 32 content) 0 messageId
    chunkDelay (Some chunkDelay) [].

(** The body of the timer callback. *)
Definition sendNextChunk (sim : Simulation.t) : Simulation.t :=
  let st := Simulation.state sim in
  let words := Simulation.words sim in
  let currentIndex := Simulation.currentIndex sim in
  let messageId := Simulation.messageId sim in
  if length words <=? currentIndex then
    let finalChunk := StreamChunk.mk messageId [] (Some true) None in
    Simulation.mk
      (StreamState.mk false (StreamState.error st)
         (StreamState.chunks st ++ [finalChunk]) (StreamState.content st))
      words currentIndex messageId (Simulation.chunkDelay sim)
      None
      (Simulation.calls sim ++ [onChunk finalChunk; onComplete])
  else
    let word := nth currentIndex words [] in
    let delta := if currentIndex =? 0 then word else js " " ++ word in
    let chunk := StreamChunk.mk messageId delta (Some false) None in
    Simulation.mk
      (pushChunk chunk st)
      words (currentIndex + 1) messageId (Simulation.chunkDelay sim)
      (Some (Simulation.chunkDelay sim))
      (Simulation.calls sim ++ [onChunk chunk]).

(** The armed timer, if any, fires. *)
Definition timerFires (sim : Simulation.t) : Simulation.t :=
  match Simulation.timer sim with
  | Some _ => sendNextChunk sim
  | None => sim
  end.

Fixpoint ticks (n : nat) (sim : Simulation.t) : Simulation.t :=
  match n with
  | O => sim
  | S n' => ticks n' (timerFires sim)
  end.

(** The chunks handed to [onChunk], in emission order. *)
Fixpoint emitted (calls : list Callback) : list StreamChunk.t :=
  match calls with
  | [] => []
  | onChunk c :: rest => c :: emitted rest
  | _ :: rest => emitted rest
  end.

(** The chunks the source description promises for the words [ws]. *)
Definition wordChunks (messageId : str) (ws : list str)
  : list StreamChunk.t :=
  match ws with
  | [] => []
  | w :: rest =>
      StreamChunk.mk messageId w (Some false) None
      :: map (fun x => StreamChunk.mk messageId (js " " ++ x) (Some false) None)
           rest
  end.

End StreamSSE.

(* ------------------------------------------------------------------ *)
(** ** hooks/useTypingAnimation.ts: [useIncrementalTyping] *)

Module TypingAnimation.

(** The delay handed to [setTimeout]: [1000 / speed] is infinite for a
    zero speed. *)
Inductive Delay :=
| Finite (ms : Q)
| Infinite.

Module Incremental.
  (** The two state cells, the three refs, and the timers of the page that
      this hook has armed (handle and delay); [nextHandle] is the handle
      the next [setTimeout] returns. *)
Record t := mk {
    displayedText : str;
    isTyping : bool;
    bufferRef : str;
    timeoutRef : option nat;
    lastUpdateRef : Z;
    timers : list (nat * Delay);
    nextHandle : nat
  }.
End Incremental.

Definition initial : Incremental.t :=
  Incremental.mk [] false [] None 0%Z [] 1.

(** [clearTimeout(handle)]. *)
Definition clearTimeout (handle : nat) (timers : list (nat * Delay))
  : list (nat * Delay) :=
  filter (fun t => negb (Nat.eqb (fst t) handle)) timers.

(** [1000 / speed]. *)
Definition minInterval (speed : Q) : Delay :=
  if Qeq_bool speed 0 then Infinite else Finite (1000 / speed)%Q.

(** [appendText(newText)] in a render where the options are [enabled] and
    [speed], the media query answers [prefersReducedMotion], and the clock
    reads [now]. *)
Definition appendText (enabled prefersReducedMotion : bool) (speed : Q)
  (now : Z) (newText : str) (h : Incremental.t) : Incremental.t :=
  let buffer := Incremental.bufferRef h ++ newText in
  if negb enabled || prefersReducedMotion then
    Incremental.mk buffer (Incremental.isTyping h) buffer
      (Incremental.timeoutRef h) (Incremental.lastUpdateRef h)
      (Incremental.timers h) (Incremental.nextHandle h)
  else
    let elapsed := inject_Z (now - Incremental.lastUpdateRef h) in
    let schedule (d : Delay) :=
      let cleared :=
        match Incremental.timeoutRef h with
        | Some handle => clearTimeout handle (Incremental.timers h)
        | None => Incremental.timers h
        end in
      Incremental.mk (Incremental.displayedText h) true buffer
        (Some (Incremental.nextHandle h)) (Incremental.lastUpdateRef h)
        (cleared ++ [(Incremental.nextHandle h, d)])
        (S (Incremental.nextHandle h)) in
    match minInterval speed with
    | Finite mi =>
        if Qle_bool mi elapsed then
          Incremental.mk buffer (Incremental.isTyping h) buffer
            (Incremental.timeoutRef h) now
            (Incremental.timers h) (Incremental.nextHandle h)
        else schedule (Finite (mi - elapsed)%Q)
    | Infinite => schedule Infinite
    end.

(** The callback of the timer [handle] runs at clock reading [now]. *)
Definition timerFires (handle : nat) (now : Z) (h : Incremental.t)
  : Incremental.t :=
  if existsb (fun t => Nat.eqb (fst t) handle) (Incremental.timers h) then
    Incremental.mk (Incremental.bufferRef h) false (Incremental.bufferRef h)
      (Incremental.timeoutRef h) now
      (clearTimeout handle (Incremental.timers h)) (Incremental.nextHandle h)
  else h.

Definition reset (h : Incremental.t) : Incremental.t :=
  Incremental.mk [] false [] None 0%Z
    match Incremental.timeoutRef h with
    | Some handle => clearTimeout handle (Incremental.timers h)
    | None => Incremental.timers h
    end
    (Incremental.nextHandle h).

Definition flush (h : Incremental.t) : Incremental.t :=
  Incremental.mk (Incremental.bufferRef h) false (Incremental.bufferRef h)
    None (Incremental.lastUpdateRef h)
    match Incremental.timeoutRef h with
    | Some handle => clearTimeout handle (Incremental.timers h)
    | None => Incremental.timers h
    end
    (Incremental.nextHandle h).

(** A sequence of [appendText] calls, each in its own render, all with the
    reduced-motion preference [prm]. *)
Module Call.
Record t := mk {
    enabled : bool;
    speed : Q;
    now : Z;
    newText : str
  }.
End Call.

Definition appendAll (prm : bool) (calls : list Call.t) (h : Incremental.t)
  : Incremental.t :=
  fold_left
    (fun h c =>
       appendText (Call.enabled c) prm (Call.speed c) (Call.now c)
         (Call.newText c) h)
    calls h.

End TypingAnimation.

(* ------------------------------------------------------------------ *)
(** ** lib/chatService.ts *)

Module ChatService.

Inductive MessageType := user | assistant.

Definition MessageType_eqb (a b : MessageType) : bool :=
  match a, b with
  | user, user | assistant, assistant => true
  | _, _ => false
  end.

(** The text a [MessageType] has in a template literal. *)
Definition typeText (t : MessageType) : str :=
  match t with
  | user => js "user"
  | assistant => js "assistant"
  end.

Module Message.
Record t := mk {
    id : str;
    type : MessageType;
    content : str;
    timestamp : Z
  }.
End Message.

Module ChatSession.
Record t := mk {
    id : str;
    title : str;
    lastMessage : str;
    timestamp : Z;
    messageCount : nat;
    messages : list Message.t
  }.
End ChatSession.

(** Exceptions the service can raise. *)
Inductive Exn :=
| InvalidCharacterError
| Error (message : str).

Inductive result (A : Type) :=
| Ok (a : A)
| Throw (e : Exn).
Arguments Ok {A} a.
Arguments Throw {A} e.

Definition bind {A B} (r : result A) (k : A -> result B) : result B :=
  match r with
  | Ok a => k a
  | Throw e => Throw e
  end.

Notation "x <- r ;; k" := (bind r (fun x => k))
  (at level 61, r at next level, right associativity).

(** *** [btoa] *)

Definition base64Alphabet : str :=
  js "ABCDEFGHIJKLMNOPQRSTUVWXYZabcdefghijklmnopqrstuvwxyz0123456789+/".

Definition base64Digit (i : N) : N := nth (N.to_nat i) base64Alphabet 0%N.

(** Base64 of a byte sequence, three bytes to four digits, [=] padded. *)
Fixpoint base64 (bytes : list N) : str :=
  match bytes with
  | [] => []
  | [a] =>
      [ base64Digit (N.shiftr a 2);
        base64Digit (N.shiftl (N.land a 3) 4);
        61%N; 61%N ]
  | [a; b] =>
      [ base64Digit (N.shiftr a 2);
        base64Digit (N.lor (N.shiftl (N.land a 3) 4) (N.shiftr b 4));
        base64Digit (N.shiftl (N.land b 15) 2);
        61%N ]
  | a :: b :: c :: rest =>
      base64Digit (N.shiftr a 2)
      :: base64Digit (N.lor (N.shiftl (N.land a 3) 4) (N.shiftr b 4))
      :: base64Digit (N.lor (N.shiftl (N.land b 15) 2) (N.shiftr c 6))
      :: base64Digit (N.land c 63)
      :: base64 rest
  end.

(** Every code unit is a byte. *)
Definition isLatin1 (s : str) : bool := forallb (fun c => (c <=? 255)%N) s.

(** [btoa(s)]: throws on a code unit above 255. *)
Definition btoa (s : str) : result str :=
  if isLatin1 s then Ok (base64 s) else Throw InvalidCharacterError.

(** *** Titles and hashes *)

Definition generateChatTitle (messages : list Message.t) : str :=
  match find (fun msg => MessageType_eqb (Message.type msg) user) messages with
  | None => js "New Chat"
  | Some firstUserMessage =>
      let content := Message.content firstUserMessage in
      let title := Js.trim (Js.slice0 50 content) in
      let title := if 50 <? length content then title ++ js "..." else title in
      let title := Js.collapseWhite title in
      Js.orElse title (js "New Chat")
  end.

(** The string that is hashed: [type:content] of every message, joined
    with a bar. *)
Definition serialize (messages : list Message.t) : str :=
  Js.join (js "|")
    (map (fun msg => typeText (Message.type msg) ++ js ":" ++ Message.content msg)
       messages).

Definition generateContentHash (messages : list Message.t) : result str :=
  encoded <- btoa (serialize messages) ;;
  Ok (Js.slice0 16 encoded).

(** *** Storage *)

(** The item under [STORAGE_KEY]. Sessions are kept as the array that
    [JSON.stringify] wrote: reading it back with [JSON.parse] and rebuilding
    the dates returns the same records. *)
Inductive Stored :=
| NoItem
| Unparsable
| Sessions (sessions : list ChatSession.t).

Definition getChatSessions (store : Stored) : list ChatSession.t :=
  match store with
  | Sessions sessions => sessions
  | NoItem | Unparsable => []
  end.

(** [sessions.find(session => generateContentHash(session.messages) ===
    contentHash)]: the session found and its index in the array; the
    callback may throw. *)
Fixpoint findExisting (contentHash : str) (sessions : list ChatSession.t)
  : result (option (nat * ChatSession.t)) :=
  match sessions with
  | [] => Ok None
  | session :: rest =>
      h <- generateContentHash (ChatSession.messages session) ;;
      if Js.eqb h contentHash then Ok (Some (0, session))
      else
        found <- findExisting contentHash rest ;;
        Ok (option_map (fun f => (S (fst f), snd f)) found)
  end.

(** The array with the object at [index] replaced by [f] of it. *)
Fixpoint updateAt {A} (index : nat) (f : A -> A) (l : list A) : list A :=
  match l, index with
  | [], _ => []
  | x :: rest, O => f x :: rest
  | x :: rest, S i => x :: updateAt i f rest
  end.

(** [content.slice(0, 100) + (content.length > 100 ? '...' : '')]. *)
Definition preview (content : str) : str :=
  Js.slice0 100 content ++ (if 100 <? length content then js "..." else []).

(** What the environment supplies to one [saveChatSession] call:
    [Math.random().toString(36).substr(2, 9)] and [new Date()]. *)
Module Env.
Record t := mk {
    randomId : str;
    now : Z
  }.
End Env.

(** The object [existingSession] after the four assignments of the update
    branch. *)
Definition updatedSession (env : Env.t) (messages : list Message.t)
  (lastMessage : Message.t) (existingSession : ChatSession.t)
  : ChatSession.t :=
  ChatSession.mk (ChatSession.id existingSession)
    (ChatSession.title existingSession)
    (preview (Message.content lastMessage))
    (Env.now env)
    (length messages)
    (map (fun msg => msg) messages).

(** The object literal of the create branch. *)
Definition newSession (env : Env.t) (messages : list Message.t)
  (lastMessage : Message.t) : ChatSession.t :=
  ChatSession.mk (Env.randomId env)
    (generateChatTitle messages)
    (preview (Message.content lastMessage))
    (Env.now env)
    (length messages)
    (map (fun msg => msg) messages).

(** [saveChatSession(messages)]: the store after the call and what the call
    returns or throws. Every [throw] comes before the only [setItem] of its
    path, so a call that throws leaves the store as it was. *)
Definition saveChatSession (env : Env.t) (messages : list Message.t)
  (store : Stored) : Stored * result ChatSession.t :=
  match messages with
  | [] => (store, Throw (Error (js "Cannot save empty chat session")))
  | first :: _ =>
      let sessions := getChatSessions store in
      let lastMessage := last messages first in
      match
        contentHash <- generateContentHash messages ;;
        findExisting contentHash sessions
      with
      | Throw e => (store, Throw e)
      | Ok (Some (index, existingSession)) =>
          let updated :=
            updatedSession env messages lastMessage existingSession in
          (Sessions (updateAt index (fun _ => updated) sessions), Ok updated)
      | Ok None =>
          let session := newSession env messages lastMessage in
          (Sessions (session :: sessions), Ok session)
      end
  end.

Definition deleteChatSession (sessionId : str) (store : Stored) : Stored :=
  Sessions
    (filter (fun session => negb (Js.eqb (ChatSession.id session) sessionId))
       (getChatSessions store)).

End ChatService.

(* ------------------------------------------------------------------ *)
(** ** hooks/useStreamSSE.ts: cancelling and resetting *)

Module StreamControl.
Import ChatEvents StreamSSE.

(** [cancelSimulation()]: the handle in [timeoutRef] is the timer armed
    last, so clearing it disarms the simulation; then [isStreaming] is
    cleared. *)
Definition cancelSimulation (sim : Simulation.t) : Simulation.t :=
  Simulation.mk
    (setIsStreaming false (Simulation.state sim))
    (Simulation.words sim) (Simulation.currentIndex sim)
    (Simulation.messageId sim) (Simulation.chunkDelay sim)
    None
    (Simulation.calls sim).

(** The lines of a response body that [startStream] hands to its parser:
    what stands before the last newline, split at newlines. *)
Definition completeLines (body : str) : list str :=
  removelast (Js.split 10 body).

(** The text a non-blank line hands to [JSON.parse]. *)
Definition payload (line : str) : str :=
  if Js.startsWith (js "data: ") line then skipn 6 line else line.

(** A line that has an effect: not blank, and the [[DONE]] sentinel or a
    payload that parses. *)
Definition effective (JSON_parse : str -> option StreamChunk.t) (line : str)
  : bool :=
  negb (Js.eqb (Js.trim line) [])
  && ((Js.startsWith (js "data: ") line
       && Js.eqb (skipn 6 line) (js "[DONE]"))
      || match JSON_parse (payload line) with
         | Some _ => true
         | None => false
         end).

End StreamControl.

(* ------------------------------------------------------------------ *)
(** ** components/EnhancedChatPanel.tsx: the simulated stream wired to the
    chat store *)

Module EnhancedChatPanel.
Import ChatEvents ChatProvider StreamSSE.

(** What the options passed to [useSimulatedStream] dispatch when the hook
    calls them: [onChunk] appends the chunk, [onComplete] finishes the
    stream and completes the [finalize] step (the timer it also arms, which
    hides the thinking bar 600 ms later, is a later event). No [onError]
    is passed. *)
Definition dispatched (call : Callback) : list ChatAction :=
  match call with
  | onChunk chunk => [APPEND_CHUNK chunk]
  | onComplete => [FINISH_STREAMING; COMPLETE_STEP finalize]
  | onError _ => []
  end.

(** The store after the callbacks [stamped], each made at its clock
    reading. *)
Definition deliver (store : ChatState.t) (stamped : list (Z * Callback))
  : ChatState.t :=
  dispatchAll store
    (flat_map (fun tc => map (fun a => (fst tc, a)) (dispatched (snd tc)))
       stamped).

(** [formatDate(date)] of the history panel. [now] is the time value of
    [new Date()], [date] the time value of the argument, [None] for an
    Invalid Date (whose time value is NaN); the locale-formatted date is
    left abstract. The source computes in doubles: the integer
    subtraction and quotient here are what it computes when both time
    values are in the range of [Date] and their difference is at most
    2^53 in absolute value (the difference is then exact, and the rounded
    quotient, below 2^27, has the floor of the exact one, since a
    non-integer quotient is at least 1/86400000 away from an integer). *)
Inductive DateLabel :=
| Today
| Yesterday
| DaysAgo (diffDays : Z)
| LocaleDate.

Definition formatDate (now : Z) (date : option Z) : DateLabel :=
  match date with
  | Some date =>
      let diffMs := (now - date)%Z in
      let diffDays := (diffMs / (1000 * 60 * 60 * 24))%Z in
      if (diffDays =? 0)%Z then Today
      else if (diffDays =? 1)%Z then Yesterday
      else if (diffDays <? 7)%Z then DaysAgo diffDays
      else LocaleDate
  | None => LocaleDate
  end.

(** The largest time value of a [Date], and the bound below which the
    difference of two time values is computed exactly. *)
Definition maxTime : Z := 8640000000000000.
Definition exactBound : Z := 9007199254740992.

End EnhancedChatPanel.

(* ------------------------------------------------------------------ *)
(** ** lib/chatService.ts: shared chats *)

Module ChatSharing.
Import ChatService.

Module ShareableChatData.
Record t := mk {
    id : str;
    title : str;
    messages : list Message.t;
    timestamp : Z;
    isPublic : bool
  }.
End ShareableChatData.

(** The item under [SHARED_CHATS_KEY]: a JSON object from share id to
    snapshot, kept as its entries. A share id is a string of digits and
    lower-case letters, so it is no inherited property name of the parsed
    object; looking up an inherited name that is no share id ends in the
    [catch] of [getSharedChat] and returns [null] as a missing key does. *)
Inductive SharedStored :=
| NoShared
| UnparsableShared
| Shared (chats : list (str * ShareableChatData.t)).

(** [getSharedChats()]: the empty object when nothing parsable is
    stored. *)
Definition getSharedChats (store : SharedStored)
  : list (str * ShareableChatData.t) :=
  match store with
  | Shared chats => chats
  | NoShared | UnparsableShared => []
  end.

(** [sharedChats[key] = data]. *)
Fixpoint assign (key : str) (data : ShareableChatData.t)
  (chats : list (str * ShareableChatData.t))
  : list (str * ShareableChatData.t) :=
  match chats with
  | [] => [(key, data)]
  | (k, v) :: rest =>
      if Js.eqb k key then (k, data) :: rest
      else (k, v) :: assign key data rest
  end.

(** [sharedChats[key]]. *)
Fixpoint property (key : str) (chats : list (str * ShareableChatData.t))
  : option ShareableChatData.t :=
  match chats with
  | [] => None
  | (k, v) :: rest => if Js.eqb k key then Some v else property key rest
  end.

(** [createShareableLink(session)], with the random id and
    [window.location.origin] supplied: the store after the call and the
    URL returned. *)
Definition createShareableLink (randomId baseUrl : str)
  (session : ChatSession.t) (store : SharedStored) : SharedStored * str :=
  let shareData :=
    ShareableChatData.mk randomId
      (ChatSession.title session)
      (ChatSession.messages session)
      (ChatSession.timestamp session)
      true in
  (Shared (assign (ShareableChatData.id shareData) shareData
             (getSharedChats store)),
   baseUrl ++ js "/shared/" ++ ShareableChatData.id shareData).

(** [getSharedChat(shareId)]; [None] is [null]. *)
Definition getSharedChat (shareId : str) (store : SharedStored)
  : option ShareableChatData.t :=
  match property shareId (getSharedChats store) with
  | None => None
  | Some chatData =>
      Some (ShareableChatData.mk
              (ShareableChatData.id chatData)
              (ShareableChatData.title chatData)
              (map (fun msg => msg) (ShareableChatData.messages chatData))
              (ShareableChatData.timestamp chatData)
              (ShareableChatData.isPublic chatData))
  end.

End ChatSharing.

(* ------------------------------------------------------------------ *)
(** ** components/SEFGHApp.tsx: [handleNewChat] *)

Module SEFGHApp.
Import ChatService.

(** The part of the application state that [handleNewChat] reads and
    writes. *)
Module AppState.
Record t := mk {
    messages : list Message.t;
    chatSessions : list ChatSession.t
  }.
End AppState.

(** The sessions the application starts with: what the store holds. *)
Definition loaded (messages : list Message.t) (store : Stored) : AppState.t :=
  AppState.mk messages (getChatSessions store).

(** [handleNewChat()]: the state update and the store afterwards. The chat
    is cleared on every path; a failed save is only logged. *)
Definition handleNewChat (env : Env.t) (state : AppState.t) (store : Stored)
  : AppState.t * Stored :=
  match AppState.messages state with
  | _ :: _ =>
      match saveChatSession env (AppState.messages state) store with
      | (store1, Ok savedSession) =>
          (AppState.mk [] (savedSession :: AppState.chatSessions state),
           store1)
      | (store1, Throw _) =>
          (AppState.mk [] (AppState.chatSessions state), store1)
      end
  | [] => (AppState.mk [] (AppState.chatSessions state), store)
  end.

End SEFGHApp.

(* ------------------------------------------------------------------ *)
(** ** hooks/useTypingAnimation.ts: the incremental renderer in use *)

Module IncrementalRun.
Import TypingAnimation.

(** What can happen to one [useIncrementalTyping] instance. *)
Inductive Event :=
| AppendText (enabled prefersReducedMotion : bool) (speed : Q) (now : Z)
    (newText : str)
| TimerFires (handle : nat) (now : Z)
| Reset
| Flush.

Definition step (h : Incremental.t) (e : Event) : Incremental.t :=
  match e with
  | AppendText enabled prm speed now newText =>
      appendText enabled prm speed now newText h
  | TimerFires handle now => timerFires handle now h
  | Reset => reset h
  | Flush => flush h
  end.

Definition run (events : list Event) : Incremental.t :=
  fold_left step events initial.

(** The text appended since the last [Reset]. *)
Fixpoint appended (events : list Event) (acc : str) : str :=
  match events with
  | [] => acc
  | AppendText _ _ _ _ newText :: rest => appended rest (acc ++ newText)
  | Reset :: rest => appended rest []
  | _ :: rest => appended rest acc
  end.

End IncrementalRun.

(* ------------------------------------------------------------------ *)
(** ** Properties the specification states, as predicates on the code *)

Module Properties.
Import ChatEvents ChatProvider.

(** The step of [steps] that an id names: the first one carrying it. *)
Definition stepNamed (id : ThoughtStepId) (steps : list ThoughtStep.t)
  : option ThoughtStep.t :=
  find (fun step => ThoughtStepId_eqb (ThoughtStep.id step) id) steps.

(** "[activeStep], if set, must reference a step currently [active]". *)
Definition activeStepIsActive (s : ChatState.t) : Prop :=
  forall id,
    ChatThinkingState.activeStep (ChatState.thinking s) = Some id ->
    exists step,
      stepNamed id (ChatThinkingState.steps (ChatState.thinking s)) = Some step
      /\ ThoughtStep.status step = active.

(** What the reducer does keep: a step named by [activeStep] has been
    started, so it is no longer [pending]. *)
Definition activeStepWasStarted (s : ChatState.t) : Prop :=
  forall id step,
    ChatThinkingState.activeStep (ChatState.thinking s) = Some id ->
    In step (ChatThinkingState.steps (ChatState.thinking s)) ->
    ThoughtStep.id step = id ->
    ThoughtStep.status step <> pending.

(** "Once [done] is true, no further content appends occur until a
    reset". *)
Definition doneIsTerminal : Prop :=
  forall (now : Z) (s : ChatState.t) (chunk : StreamChunk.t),
    StreamingState.done (ChatState.streaming s) = true ->
    StreamingState.content
      (ChatState.streaming (chatReducer now s (appendChunk chunk)))
    = StreamingState.content (ChatState.streaming s).

(** Exactly the last chunk of a sequence carries [done: true]. *)
Definition lastIsDone (chunks : list StreamChunk.t) : Prop :=
  exists init final,
    chunks = init ++ [final]
    /\ StreamChunk.done final = Some true
    /\ forall c, In c init -> StreamChunk.done c <> Some true.

(** The actions of [appendChunk] for chunks that arrive at given clock
    readings. *)
Definition appendChunks (stamped : list (Z * StreamChunk.t))
  : list (Z * ChatAction) :=
  map (fun tc => (fst tc, appendChunk (snd tc))) stamped.

(** The chunk [sendNextChunk] builds at index [k] of the words [W]. *)
Definition chunkAt (messageId : str) (W : list str) (k : nat)
  : StreamChunk.t :=
  StreamChunk.mk messageId
    (if k =? 0 then nth k W [] else js " " ++ nth k W [])
    (Some false) None.

Definition finalChunk (messageId : str) : StreamChunk.t :=
  StreamChunk.mk messageId [] (Some true) None.

(** The simulation after [k] ticks while words remain. *)
Definition running (messageId : str) (chunkDelay : Z) (W : list str)
  (k : nat) (sim : StreamSSE.Simulation.t) : Prop :=
  StreamSSE.Simulation.words sim = W
  /\ StreamSSE.Simulation.currentIndex sim = k
  /\ StreamSSE.Simulation.messageId sim = messageId
  /\ StreamSSE.Simulation.chunkDelay sim = chunkDelay
  /\ StreamSSE.Simulation.timer sim = Some chunkDelay
  /\ StreamSSE.StreamState.isStreaming (StreamSSE.Simulation.state sim) = true
  /\ StreamSSE.emitted (StreamSSE.Simulation.calls sim)
     = firstn k (StreamSSE.wordChunks messageId W)
  /\ StreamSSE.StreamState.chunks (StreamSSE.Simulation.state sim)
     = firstn k (StreamSSE.wordChunks messageId W).

(** The simulation once the final chunk has been sent. *)
Definition finished (messageId : str) (W : list str)
  (sim : StreamSSE.Simulation.t) : Prop :=
  StreamSSE.Simulation.timer sim = None
  /\ StreamSSE.StreamState.isStreaming (StreamSSE.Simulation.state sim) = false
  /\ StreamSSE.emitted (StreamSSE.Simulation.calls sim)
     = StreamSSE.wordChunks messageId W ++ [finalChunk messageId]
  /\ StreamSSE.StreamState.chunks (StreamSSE.Simulation.state sim)
     = StreamSSE.wordChunks messageId W ++ [finalChunk messageId].


(** A terminal [done: true] as the network hook can show one - its state
    has no [done] field: a chunk that carries the flag, kept in [chunks]
    or handed to [onChunk], or a call of [onComplete]. *)
Definition endedWithDone (s : StreamSSE.StreamState.t)
  (calls : list StreamSSE.Callback) : Prop :=
  (exists c, In c (StreamSSE.StreamState.chunks s)
             /\ StreamChunk.done c = Some true)
  \/ (exists c, In (StreamSSE.onChunk c) calls
                /\ StreamChunk.done c = Some true)
  \/ In StreamSSE.onComplete calls.

(** "Network errors other than user-initiated abort populate [error] and
    terminate with [done: true]", for a stream in flight. *)
Definition failureEndsWithDone (JSON_parse : str -> option StreamChunk.t)
  : Prop :=
  forall net s calls name message,
    StreamSSE.startStream JSON_parse net = StreamSSE.InFlight s calls ->
    name <> js "AbortError" ->
    exists s' calls',
      StreamSSE.startStream JSON_parse
        (StreamSSE.thenRejects (StreamSSE.ErrorObject name message) net)
      = StreamSSE.Settled s' calls'
      /\ StreamSSE.StreamState.isStreaming s' = false
      /\ StreamSSE.StreamState.error s'
         = Some (Js.orElse message (js "Stream failed"))
      /\ endedWithDone s' calls'.

(** What holds of the network hook while a stream is in flight: it is
    marked streaming, has no error, and has neither kept nor handed out a
    chunk with [done: true], nor called anything but [onChunk]. *)
Definition streaming (s : StreamSSE.StreamState.t)
  (calls : list StreamSSE.Callback) : Prop :=
  StreamSSE.StreamState.isStreaming s = true
  /\ StreamSSE.StreamState.error s = None
  /\ Forall (fun c => StreamSSE.isDone c = false)
       (StreamSSE.StreamState.chunks s)
  /\ Forall (fun call =>
               match call with
               | StreamSSE.onChunk c => StreamSSE.isDone c = false
               | _ => False
               end) calls.

End Properties.

(* ------------------------------------------------------------------ *)
(** ** Concrete inputs used in the examples below *)

Module Examples.
Import ChatEvents ChatProvider.

(** Three chunks of one message, the last one final. *)
Definition C1_chunks : list (Z * StreamChunk.t) :=
  [ (1%Z, StreamChunk.mk (js "m1") (js "hello") (Some false) None);
    (2%Z, StreamChunk.mk (js "m1") (js " world") None None);
    (3%Z, StreamChunk.mk (js "m1") [] (Some true) None) ].

(** The timeline after [startStep('understand')] and
    [completeStep('understand')], at clock readings 10 and 20. *)
Definition C2_completed : ChatState.t :=
  dispatchAll initialState
    [ (10%Z, startStep understand None None);
      (20%Z, completeStep understand) ].

(** The timeline after [startStep('understand')] alone. *)
Definition C2_started : ChatState.t :=
  chatReducer 10%Z initialState (startStep understand None None).

(** A stream that has received its final chunk. *)
Definition C3_finished : ChatState.t :=
  dispatchAll initialState
    [ (0%Z, startStreaming (js "m1"));
      (1%Z, appendChunk (StreamChunk.mk (js "m1") (js "a") (Some true) None)) ].

(** A chunk that arrives afterwards. *)
Definition C3_late : StreamChunk.t :=
  StreamChunk.mk (js "m1") (js "b") None None.

(** A user message of 80 code units, between two assistant messages. *)
Definition C7_long : ChatService.Message.t :=
  ChatService.Message.mk (js "user-1") ChatService.user
    (js "Explain   how the thinking timeline and the streaming state work together please")
    0%Z.

Definition C7_messages : list ChatService.Message.t :=
  [ ChatService.Message.mk (js "assistant-0") ChatService.assistant
      (js "Hello") 0%Z;
    C7_long ].

(** Two one-message lists whose contents differ after the first seven
    code units. *)
Definition C9_first : list ChatService.Message.t :=
  [ ChatService.Message.mk (js "user-1") ChatService.user
      (js "hello world one") 1%Z ].

Definition C9_second : list ChatService.Message.t :=
  [ ChatService.Message.mk (js "user-2") ChatService.user
      (js "hello world two") 2%Z ].

(** A store that already holds a session, and a list to save into it. *)
Definition C5_store : ChatService.Stored :=
  ChatService.Sessions
    [ ChatService.ChatSession.mk (js "abc123xyz") (js "Older chat")
        (js "bye") 5%Z 1
        [ ChatService.Message.mk (js "user-0") ChatService.user
            (js "An older question") 4%Z ] ].

Definition C5_messages : list ChatService.Message.t :=
  [ ChatService.Message.mk (js "user-1") ChatService.user
      (js "What is a reducer?") 10%Z;
    ChatService.Message.mk (js "assistant-1") ChatService.assistant
      (js "A pure function from state and action to state.") 11%Z ].


Definition C5_env1 : ChatService.Env.t :=
  ChatService.Env.mk (js "k3j9x0q1z") 20%Z.

Definition C5_env2 : ChatService.Env.t :=
  ChatService.Env.mk (js "p0o9i8u7y") 30%Z.

(** A JSON string literal: the text between double quotes. *)
Definition quoted (s : str) : str := [34%N] ++ s ++ [34%N].

(** The JSON text of a chunk with id [m1] and delta [Hi]. *)
Definition C6_frame : str :=
  js "{" ++ quoted (js "id") ++ js ":" ++ quoted (js "m1") ++ js ","
  ++ quoted (js "delta") ++ js ":" ++ quoted (js "Hi") ++ js "}".

(** A parser that knows that one frame. *)
Definition C6_parse (text : str) : option StreamChunk.t :=
  if Js.eqb text C6_frame
  then Some (StreamChunk.mk (js "m1") (js "Hi") None None)
  else None.

(** A response whose body has delivered one frame and the beginning of
    the next; the third read is pending. *)
Definition C6_net : StreamSSE.Network :=
  StreamSSE.FetchResponse true 200%Z
    (Some [ StreamSSE.ReadValue (js "data: " ++ C6_frame ++ [10%N]);
            StreamSSE.ReadValue (js "data: {") ]).

(** The hook state while [C6_net] is in flight. *)
Definition C6_inflight : StreamSSE.StreamState.t :=
  StreamSSE.StreamState.mk true None
    [StreamChunk.mk (js "m1") (js "Hi") None None] (js "Hi").

Definition C6_calls : list StreamSSE.Callback :=
  [StreamSSE.onChunk (StreamChunk.mk (js "m1") (js "Hi") None None)].

End Examples.

(* ------------------------------------------------------------------ *)
(** ** Further invariants and classifications, read off the code *)

Module Invariants.
Import ChatEvents ChatProvider.

(** The actions whose case of the reducer rebuilds [thinking]; the other
    five rebuild [streaming]. *)
Definition touchesThinking (a : ChatAction) : bool :=
  match a with
  | SET_THINKING_VISIBLE _ | SET_CAN_CANCEL _ | START_STEP _ _ _
  | COMPLETE_STEP _ | FAIL_STEP _ _ | RESET_THINKING => true
  | START_STREAMING _ | APPEND_CHUNK _ | FINISH_STREAMING
  | ERROR_STREAMING _ | RESET_STREAMING => false
  end.

Definition thinkingOnly (acts : list (Z * ChatAction)) : list (Z * ChatAction) :=
  filter (fun na => touchesThinking (snd na)) acts.

Definition streamingOnly (acts : list (Z * ChatAction)) : list (Z * ChatAction) :=
  filter (fun na => negb (touchesThinking (snd na))) acts.

(** The timeline has the five default steps, in order, each with a
    label. *)
Definition timelineShape (s : ChatState.t) : Prop :=
  map ThoughtStep.id (ChatThinkingState.steps (ChatState.thinking s))
  = [understand; plan; retrieve; compose; finalize]
  /\ Forall (fun step => ThoughtStep.label step <> [])
       (ChatThinkingState.steps (ChatState.thinking s)).

End Invariants.

Module NetworkInvariants.
Import ChatEvents StreamSSE StreamControl.

(** The hook's [content] is the concatenation of the deltas of the chunks
    it keeps. *)
Definition accumulated (s : StreamState.t) : Prop :=
  StreamState.content s
  = concat (map StreamChunk.delta (StreamState.chunks s)).

(** A hook that is streaming: no error, and [onChunk] called once for
    each chunk kept, in order, and nothing else called. *)
Definition live (s : StreamState.t) (calls : list Callback) : Prop :=
  StreamState.isStreaming s = true
  /\ StreamState.error s = None
  /\ accumulated s
  /\ calls = map onChunk (StreamState.chunks s).

(** A hook that completed. *)
Definition completed (s : StreamState.t) (calls : list Callback) : Prop :=
  StreamState.isStreaming s = false
  /\ StreamState.error s = None
  /\ accumulated s
  /\ calls = map onChunk (StreamState.chunks s) ++ [onComplete].

(** The three ways a hook ends and the one way it is in flight. *)
Definition outcomeShape (o : Outcome) : Prop :=
  match o with
  | InFlight s calls => live s calls
  | Settled s calls =>
      StreamState.isStreaming s = false
      /\ accumulated s
      /\ ((StreamState.error s = None
           /\ (calls = map onChunk (StreamState.chunks s)
               \/ calls = map onChunk (StreamState.chunks s) ++ [onComplete]))
          \/ exists m,
               m <> []
               /\ StreamState.error s = Some m
               /\ calls = map onChunk (StreamState.chunks s) ++ [onError m])
  end.

(** What [startStream] makes of a response body that arrived whole and
    then ended: its complete lines, processed in order. *)
Definition bodyOutcome (JSON_parse : str -> option StreamChunk.t) (body : str)
  : Outcome :=
  match processLines JSON_parse (completeLines body) (freshState true) [] with
  | (true, s, calls) => Settled s calls
  | (false, s, calls) => Settled (setIsStreaming false s) (calls ++ [onComplete])
  end.

(** A successful response that delivers [texts] and then ends. *)
Definition delivered (status : Z) (texts : list str) : Network :=
  FetchResponse true status (Some (map ReadValue texts ++ [ReadDone])).

End NetworkInvariants.

Module ServiceInvariants.
Import ChatService ChatSharing SEFGHApp.

(** Every white-space code unit of the text is a plain space. *)
Definition plainSpaces (t : str) : Prop :=
  Forall (fun c => Js.isWhite c = true -> c = 32%N) t.

(** No two spaces stand side by side. *)
Fixpoint noDoubleSpace (t : str) : bool :=
  match t with
  | a :: (b :: _) as rest =>
      negb (N.eqb a 32 && N.eqb b 32) && noDoubleSpace rest
  | _ => true
  end.

(** What every stored session should say about its messages. *)
Definition consistent (session : ChatSession.t) : Prop :=
  ChatSession.messageCount session = length (ChatSession.messages session)
  /\ match ChatSession.messages session with
     | [] => False
     | first :: _ =>
         ChatSession.lastMessage session
         = preview (Message.content (last (ChatSession.messages session) first))
     end
  /\ length (ChatSession.lastMessage session) <= 103
  /\ ChatSession.title session <> []
  /\ length (ChatSession.title session) <= 53.

(** A snapshot of a session under a share id. *)
Definition snapshot (shareId : str) (session : ChatSession.t)
  : ShareableChatData.t :=
  ShareableChatData.mk shareId (ChatSession.title session)
    (ChatSession.messages session) (ChatSession.timestamp session) true.

(** The position of a base64 digit in the alphabet; 64 for any other code
    unit. *)
Fixpoint indexIn (d : N) (alphabet : str) : N :=
  match alphabet with
  | [] => 0
  | x :: rest => if N.eqb x d then 0 else N.succ (indexIn d rest)
  end%N.

Definition base64Index (d : N) : N := indexIn d base64Alphabet.

(** The numbers below [n]. *)
Definition below (n : nat) : list N := map N.of_nat (seq 0 n).

(** The first byte of a group and the high half of the second can be read
    back from the first two digit indices. *)
Definition checkFirst (a b : N) : bool :=
  let i1 := N.shiftr a 2 in
  let i2 := N.lor (N.shiftl (N.land a 3) 4) (N.shiftr b 4) in
  ((i1 <? 64) && (i2 <? 64) && (i1 * 4 + i2 / 16 =? a)
   && (i2 mod 16 =? N.shiftr b 4))%N.

(** The low half of the second byte and the third byte can be read back
    from the last two digit indices. *)
Definition checkLast (b c : N) : bool :=
  let i3 := N.lor (N.shiftl (N.land b 15) 2) (N.shiftr c 6) in
  let i4 := N.land c 63 in
  ((i3 <? 64) && (i4 <? 64) && (i3 / 4 =? N.land b 15)
   && ((i3 mod 4) * 64 + i4 =? c)
   && (N.shiftr b 4 * 16 + N.land b 15 =? b))%N.

(** A session to share, and a store of shared chats that already holds a
    snapshot under another id. *)
Definition sharedSession : ChatSession.t :=
  ChatSession.mk (js "k3j9x0q1z") (js "What is a reducer?") (js "A pure")
    20%Z 1
    [ Message.mk (js "user-1") user (js "What is a reducer?") 10%Z ].

Definition sharedBefore : SharedStored :=
  Shared [ (js "aaa111bbb", snapshot (js "aaa111bbb") sharedSession) ].

(** The application with the second conversation of the collision example
    on screen, after the first one was saved. *)
Definition collidingStore : Stored :=
  fst (saveChatSession (Env.mk (js "k3j9x0q1z") 20%Z)
         [ Message.mk (js "user-1") user (js "hello world one") 1%Z ]
         NoItem).

Definition collidingMessages : list Message.t :=
  [ Message.mk (js "user-2") user (js "hello world two") 2%Z ].

(** A conversation with a code unit above 255: a right arrow. *)
Definition arrowMessages : list Message.t :=
  [ Message.mk (js "user-3") user (js "a " ++ [8594%N] ++ js " b") 3%Z ].

End ServiceInvariants.

Module TypingInvariants.
Import TypingAnimation IncrementalRun.

(** At most one timer is armed, and [timeoutRef] holds its handle. *)
Definition oneTimer (h : Incremental.t) : Prop :=
  Incremental.timers h = []
  \/ exists handle delay,
       Incremental.timers h = [(handle, delay)]
       /\ Incremental.timeoutRef h = Some handle.

(** The visible text is a beginning of the buffered text. *)
Definition showsPrefix (h : Incremental.t) : Prop :=
  exists rest,
    Incremental.bufferRef h = Incremental.displayedText h ++ rest.

(** Everything buffered is visible, or a timer is armed whose callback
    makes it visible. *)
Definition catchesUp (h : Incremental.t) : Prop :=
  Incremental.displayedText h = Incremental.bufferRef h
  \/ exists handle delay,
       Incremental.timers h = [(handle, delay)]
       /\ forall now,
            Incremental.displayedText (timerFires handle now h)
            = Incremental.bufferRef h.

(** What holds of the renderer after any events. *)
Definition sound (h : Incremental.t) : Prop :=
  oneTimer h
  /\ showsPrefix h
  /\ catchesUp h
  /\ (Incremental.isTyping h = true <-> Incremental.timers h <> []).

End TypingInvariants.

(* ================================================================== *)
(** * Theorems *)

(* ------------------------------------------------------------------ *)
(** ** JavaScript strings *)

Section JsFacts.

Lemma Js_eqb_eq (a b : str) : Js.eqb a b = true <-> a = b.
Proof.
  revert b; induction a as [|x a IH]; intros [|y b]; simpl;
    try (split; discriminate); try tauto.
  rewrite andb_true_iff, N.eqb_eq, IH.
  split; [intros [-> ->]; reflexivity | intros H; injection H; auto].
Qed.

Lemma Js_eqb_refl (a : str) : Js.eqb a a = true.
Proof. apply Js_eqb_eq; reflexivity. Qed.

Lemma Js_eqb_neq (a b : str) : Js.eqb a b = false <-> a <> b.
Proof.
  rewrite <- Js_eqb_eq. destruct (Js.eqb a b); split; congruence.
Qed.

End JsFacts.

(* ------------------------------------------------------------------ *)
(** ** The reducer *)

Section ReducerFacts.
Import ChatEvents ChatProvider Properties Examples.

Lemma ThoughtStepId_eqb_eq (a b : ThoughtStepId) :
  ThoughtStepId_eqb a b = true <-> a = b.
Proof. destruct a, b; simpl; split; congruence. Qed.

Lemma dispatchAll_cons s now a acts :
  dispatchAll s ((now, a) :: acts) = dispatchAll (chatReducer now s a) acts.
Proof. reflexivity. Qed.

Lemma dispatchAll_app s acts1 acts2 :
  dispatchAll s (acts1 ++ acts2) = dispatchAll (dispatchAll s acts1) acts2.
Proof. apply fold_left_app. Qed.

(** Appending chunks extends [content] by their deltas, whatever the
    flags of the state and of the chunks are. *)
Lemma appendChunks_content stamped : forall s,
  StreamingState.content
    (ChatState.streaming (dispatchAll s (appendChunks stamped)))
  = StreamingState.content (ChatState.streaming s)
    ++ concat (map (fun tc => StreamChunk.delta (snd tc)) stamped).
Proof.
  induction stamped as [|[t c] rest IH]; intros s; simpl.
  - now rewrite app_nil_r.
  - unfold appendChunks in IH. unfold dispatchAll in *. rewrite IH. simpl.
    now rewrite app_assoc.
Qed.

(** Appending chunks touches neither [isStreaming] nor [messageId]. *)
Lemma appendChunks_frame stamped : forall s,
  let s' := dispatchAll s (appendChunks stamped) in
  StreamingState.isStreaming (ChatState.streaming s')
  = StreamingState.isStreaming (ChatState.streaming s)
  /\ StreamingState.messageId (ChatState.streaming s')
     = StreamingState.messageId (ChatState.streaming s)
  /\ ChatState.thinking s' = ChatState.thinking s.
Proof.
  induction stamped as [|[t c] rest IH]; intros s; [simpl; auto|].
  specialize (IH (chatReducer t s (appendChunk c))).
  cbv zeta in *. unfold appendChunks, dispatchAll in *. simpl in *.
  destruct IH as (H1 & H2 & H3).
  rewrite H1, H2, H3. auto.
Qed.

(** C1: for chunks sharing one message id of which exactly the last has
    [done = true], [startStreaming(messageId)] followed by [appendChunk]
    of each chunk in emission order leaves [content] equal to the
    concatenation of all deltas, with [done = true]. The session is still
    marked streaming and records the message id. The reducer never reads
    the chunks' ids; the hypothesis on them is the claim's. *)
Theorem C1_stream_content_is_concatenation
  (s : ChatState.t) (messageId : str) (t0 : Z)
  (stamped : list (Z * StreamChunk.t)) :
  let chunks := map snd stamped in
  (forall c, In c chunks -> StreamChunk.id c = messageId) ->
  lastIsDone chunks ->
  let s' :=
    dispatchAll s ((t0, startStreaming messageId) :: appendChunks stamped) in
  StreamingState.content (ChatState.streaming s')
  = concat (map StreamChunk.delta chunks)
  /\ StreamingState.done (ChatState.streaming s') = true
  /\ StreamingState.isStreaming (ChatState.streaming s') = true
  /\ StreamingState.messageId (ChatState.streaming s') = Some messageId.
Proof.
  intros chunks _ (init & final & Hsplit & Hfinal & _) s'.
  subst s'. rewrite dispatchAll_cons.
  split; [|split].
  - rewrite appendChunks_content. simpl. subst chunks.
    now rewrite map_map.
  - subst chunks.
    destruct (exists_last (l := stamped)) as (front & [t c] & ->).
    { intros ->. destruct init; discriminate. }
    rewrite map_app in Hsplit. simpl in Hsplit.
    apply app_inj_tail in Hsplit as [_ ->].
    unfold appendChunks. rewrite map_app, dispatchAll_app. simpl.
    now rewrite Hfinal.
  - destruct (appendChunks_frame stamped
                (chatReducer t0 s (startStreaming messageId))) as (H1 & H2 & _).
    rewrite H1, H2. simpl. auto.
Qed.

(** C1 at three chunks of message [m1]: the content is ["hello world"]. *)
Lemma C1_stream_content_witness :
  let s' :=
    dispatchAll initialState
      ((0%Z, startStreaming (js "m1")) :: appendChunks C1_chunks) in
  StreamingState.content (ChatState.streaming s') = js "hello world"
  /\ StreamingState.done (ChatState.streaming s') = true.
Proof.
  destruct (@C1_stream_content_is_concatenation initialState (js "m1") 0%Z
              C1_chunks) as (Hc & Hd & _).
  - simpl. intros c [<-|[<-|[<-|[]]]]; reflexivity.
  - exists (map snd (firstn 2 C1_chunks)),
      (StreamChunk.mk (js "m1") [] (Some true) None).
    split; [reflexivity|]. split; [reflexivity|].
    simpl. intros c [<-|[<-|[]]]; simpl; discriminate.
  - split; [exact Hc | exact Hd].
Defined.

(** The status of [step] after one action, in terms of its status
    before. *)
Lemma In_map_step (f : ThoughtStep.t -> ThoughtStep.t) steps step :
  In step (map f steps) -> exists step0, In step0 steps /\ step = f step0.
Proof.
  intros H. apply in_map_iff in H as (step0 & <- & Hin). eauto.
Qed.

Lemma reachable_activeStepWasStarted s :
  reachable s -> activeStepWasStarted s.
Proof.
  induction 1 as [|s now a Hr IH]; unfold activeStepWasStarted in *.
  - simpl. discriminate.
  - destruct a; simpl; try exact IH.
    + intros id0 step [= <-] Hin Hid.
      apply In_map_step in Hin as (step0 & Hin0 & ->).
      destruct (ThoughtStepId_eqb (ThoughtStep.id step0) id) eqn:E;
        simpl; [discriminate|].
      apply ThoughtStepId_eqb_eq in Hid. congruence.
    + intros id0 step Hact Hin Hid.
      apply In_map_step in Hin as (step0 & Hin0 & ->).
      destruct (ThoughtStepId_eqb (ThoughtStep.id step0) payload) eqn:E;
        simpl; [discriminate|].
      eapply IH; eauto.
    + intros id0 step Hact Hin Hid.
      apply In_map_step in Hin as (step0 & Hin0 & ->).
      destruct (ThoughtStepId_eqb (ThoughtStep.id step0) id) eqn:E;
        simpl; [discriminate|].
      eapply IH; eauto.
    + discriminate.
Qed.

(** C2, as stated, fails: after [startStep('understand')] and
    [completeStep('understand')] the state is reachable, [activeStep] is
    still ['understand'], and that step has status [done]. *)
Lemma C2_activeStep_not_active_after_complete :
  ~ (forall s, reachable s -> activeStepIsActive s).
Proof.
  intros H.
  assert (Hr : reachable C2_completed) by (do 2 constructor; constructor).
  destruct (H _ Hr understand eq_refl) as (step & Hfind & Hstatus).
  vm_compute in Hfind. injection Hfind as <-. discriminate Hstatus.
Qed.

(** C2, amended: in every reachable state a step named by [activeStep] has
    been started (its status is [active], [done] or [error], never
    [pending]); right after [startStep(id)] every step with that id is
    [active] and [activeStep] is [id]; [completeStep(id)] sets status
    [done] and [endedAt] and leaves [activeStep] as it was. *)
Theorem C2_activeStep_names_a_started_step (s : ChatState.t) :
  reachable s ->
  activeStepWasStarted s
  /\ (forall now id label toolName step,
        let s' := chatReducer now s (START_STEP id label toolName) in
        ChatThinkingState.activeStep (ChatState.thinking s') = Some id
        /\ (In step (ChatThinkingState.steps (ChatState.thinking s')) ->
            ThoughtStep.id step = id ->
            ThoughtStep.status step = active))
  /\ (forall now id step,
        let s' := chatReducer now s (completeStep id) in
        ChatThinkingState.activeStep (ChatState.thinking s')
        = ChatThinkingState.activeStep (ChatState.thinking s)
        /\ (In step (ChatThinkingState.steps (ChatState.thinking s')) ->
            ThoughtStep.id step = id ->
            ThoughtStep.status step = done
            /\ ThoughtStep.endedAt step = Some now)).
Proof.
  intros Hr. split; [now apply reachable_activeStepWasStarted|].
  split.
  - intros now id label toolName step s'. split; [reflexivity|].
    subst s'; simpl. intros Hin Hid.
    apply In_map_step in Hin as (step0 & _ & ->).
    destruct (ThoughtStepId_eqb (ThoughtStep.id step0) id) eqn:E;
      [reflexivity|].
    apply ThoughtStepId_eqb_eq in Hid. congruence.
  - intros now id step s'. split; [reflexivity|].
    subst s'; simpl. intros Hin Hid.
    apply In_map_step in Hin as (step0 & _ & ->).
    destruct (ThoughtStepId_eqb (ThoughtStep.id step0) id) eqn:E;
      [simpl; auto|].
    apply ThoughtStepId_eqb_eq in Hid. congruence.
Qed.

(** C2 at the timeline whose first step was started and completed. *)
Lemma C2_activeStep_witness :
  reachable C2_completed
  /\ ChatThinkingState.activeStep (ChatState.thinking C2_completed)
     = Some understand
  /\ activeStepWasStarted C2_completed.
Proof.
  assert (Hr : reachable C2_completed) by (do 2 constructor; constructor).
  split; [exact Hr|]. split; [reflexivity|].
  exact (proj1 (C2_activeStep_names_a_started_step Hr)).
Defined.

(** C3, as stated, fails: a stream whose final chunk has arrived has
    [done = true] and content ["a"]; a further [appendChunk] with delta
    ["b"] makes the content ["ab"]. *)
Lemma C3_append_after_done_changes_content : ~ doneIsTerminal.
Proof.
  intros H. specialize (H 2%Z C3_finished C3_late eq_refl).
  vm_compute in H. discriminate H.
Qed.

(** C3, amended: the reducer has no guard on [done]. In a state with
    [done = true], [appendChunk] still appends the chunk's delta and sets
    [done] from the chunk, so the content is unchanged exactly when the
    delta is empty; ending the appends is left to the consumer. *)
Theorem C3_append_after_done_appends
  (now : Z) (s : ChatState.t) (chunk : StreamChunk.t) :
  StreamingState.done (ChatState.streaming s) = true ->
  let s' := chatReducer now s (appendChunk chunk) in
  StreamingState.content (ChatState.streaming s')
  = StreamingState.content (ChatState.streaming s) ++ StreamChunk.delta chunk
  /\ StreamingState.done (ChatState.streaming s')
     = doneOrFalse (StreamChunk.done chunk)
  /\ (StreamingState.content (ChatState.streaming s')
      = StreamingState.content (ChatState.streaming s)
      <-> StreamChunk.delta chunk = []).
Proof.
  intros _ s'. subst s'. simpl. repeat split.
  - intros H.
    rewrite <- (app_nil_r (StreamingState.content (ChatState.streaming s)))
      in H at 2.
    now apply app_inv_head in H.
  - intros ->. apply app_nil_r.
Qed.

(** C3 at the finished stream of the counterexample: the late chunk is
    appended. *)
Lemma C3_append_after_done_witness :
  StreamingState.content
    (ChatState.streaming (chatReducer 2%Z C3_finished (appendChunk C3_late)))
  = js "ab".
Proof.
  exact (proj1 (@C3_append_after_done_appends 2%Z C3_finished C3_late
                  eq_refl)).
Defined.

(** C10: [startStep('tool')] from the initial state sets [activeStep] to
    ['tool'] and changes no step: the list is the default one, whose ids
    are understand, plan, retrieve, compose and finalize, all [pending]. *)
Theorem C10_startStep_tool_changes_no_step
  (now : Z) (label : option str) (meta : option (option str)) :
  let s' := chatReducer now initialState (startStep tool label meta) in
  ChatThinkingState.activeStep (ChatState.thinking s') = Some tool
  /\ ChatThinkingState.steps (ChatState.thinking s')
     = ChatThinkingState.steps (ChatState.thinking initialState)
  /\ map ThoughtStep.id (ChatThinkingState.steps (ChatState.thinking s'))
     = [understand; plan; retrieve; compose; finalize]
  /\ Forall (fun step => ThoughtStep.status step = pending)
       (ChatThinkingState.steps (ChatState.thinking s')).
Proof.
  cbv zeta. split; [reflexivity|]. split; [reflexivity|].
  split; [reflexivity|].
  simpl. repeat constructor.
Qed.

End ReducerFacts.

(* ------------------------------------------------------------------ *)
(** ** The simulated stream source *)

Section SimulationFacts.
Import ChatEvents StreamSSE Properties.

Variables (messageId : str) (chunkDelay : Z) (W : list str).


Lemma emitted_app calls1 calls2 :
  emitted (calls1 ++ calls2) = emitted calls1 ++ emitted calls2.
Proof.
  induction calls1 as [|[c|m|] rest IH]; simpl; auto. now rewrite IH.
Qed.

Lemma wordChunks_length : length (wordChunks messageId W) = length W.
Proof. destruct W; simpl; [reflexivity|]. now rewrite length_map. Qed.

Lemma wordChunks_nth k :
  k < length W ->
  nth_error (wordChunks messageId W) k = Some (chunkAt messageId W k).
Proof.
  unfold chunkAt.
  destruct W as [|w ws]; simpl; [lia|].
  destruct k as [|k]; simpl; [reflexivity|]. intros Hk.
  rewrite nth_error_map.
  rewrite (@nth_error_nth' (list N) ws k []) by (unfold str in *; lia).
  reflexivity.
Qed.

Lemma firstn_snoc {A} (l : list A) k x :
  nth_error l k = Some x -> firstn (S k) l = firstn k l ++ [x].
Proof.
  revert k; induction l as [|y l IH]; intros [|k] H; try discriminate H.
  - injection H as ->. reflexivity.
  - change (y :: firstn (S k) l = y :: (firstn k l ++ [x])).
    f_equal. apply IH, H.
Qed.

Lemma ticks_succ n : forall sim, ticks (S n) sim = timerFires (ticks n sim).
Proof. induction n as [|n IH]; intros sim; [reflexivity|]. apply IH. Qed.

Lemma running_step k sim :
  k < length W ->
  running messageId chunkDelay W k sim ->
  running messageId chunkDelay W (S k) (timerFires sim).
Proof.
  intros Hk (Hw & Hi & Hm & Hd & Ht & Hs & He & Hc).
  unfold timerFires, sendNextChunk. rewrite Ht, Hw, Hi, Hm, Hd.
  destruct (Nat.leb_spec (length W) k) as [Hle|_]; [lia|].
  unfold running. rewrite (@firstn_snoc _ _ _ _ (wordChunks_nth Hk)).
  simpl. rewrite emitted_app, He, Hc.
  repeat split; auto; lia.
Qed.

Lemma running_finish sim :
  running messageId chunkDelay W (length W) sim ->
  finished messageId W (timerFires sim).
Proof.
  intros (Hw & Hi & Hm & Hd & Ht & Hs & He & Hc).
  unfold timerFires, sendNextChunk. rewrite Ht, Hw, Hi, Hm.
  rewrite Nat.leb_refl. unfold finished; simpl.
  rewrite emitted_app, He, Hc, <- wordChunks_length, firstn_all.
  repeat split; auto.
Qed.

Lemma finished_stays sim n :
  finished messageId W sim -> ticks n sim = sim.
Proof.
  intros (Ht & _). induction n as [|n IH]; [reflexivity|].
  simpl. unfold timerFires. now rewrite Ht.
Qed.

End SimulationFacts.

Section SimulationRun.
Import ChatEvents StreamSSE Properties.

Variables (content messageId : str) (chunkDelay : Z).

Lemma ticks_running k :
  k <= length (Js.split 32 content) ->
  running messageId chunkDelay (Js.split 32 content) k
    (ticks k (startSimulation content messageId chunkDelay)).
Proof.
  induction k as [|k IH]; intros Hk.
  - unfold running; simpl. repeat split; auto.
  - rewrite ticks_succ. apply running_step; [lia|]. apply IH; lia.
Qed.

Lemma ticks_finished k :
  length (Js.split 32 content) < k ->
  finished messageId (Js.split 32 content)
    (ticks k (startSimulation content messageId chunkDelay)).
Proof.
  set (W := Js.split 32 content).
  set (start := startSimulation content messageId chunkDelay).
  intros Hk.
  assert (Hf : finished messageId W (ticks (S (length W)) start)).
  { rewrite ticks_succ. eapply running_finish, ticks_running; auto. }
  replace k with (S (length W) + (k - S (length W))) by lia.
  clear Hk. generalize (k - S (length W)) as m. intros m.
  assert (Hadd : forall a b sim, ticks (a + b) sim = ticks b (ticks a sim)).
  { induction a as [|a IHa]; intros b sim; [reflexivity|]. simpl. apply IHa. }
  rewrite Hadd, (finished_stays m Hf). exact Hf.
Qed.

End SimulationRun.

Section SimulationClaim.
Import ChatEvents StreamSSE Properties.

(** C4: the simulated source, given a string, a message id and a delay,
    hands [onChunk] one chunk per timer tick: the words of
    [content.split(' ')] in order, the first as it is and every later one
    behind a single space, all with [done: false], and then one chunk with
    empty delta and [done: true]; every chunk carries the given id, each
    tick before the last re-arms the timer with the given delay, and after
    the final chunk no timer is armed. For ["hello world"] the chunks are
    exactly ["hello"], [" world"] and the final one. *)
Theorem C4_simulated_stream_chunks (content messageId : str) (chunkDelay : Z) :
  let words := Js.split 32 content in
  let final := StreamChunk.mk messageId [] (Some true) None in
  let expected := wordChunks messageId words ++ [final] in
  let start := startSimulation content messageId chunkDelay in
  (forall n, emitted (Simulation.calls (ticks n start)) = firstn n expected)
  /\ (forall n, Simulation.timer (ticks n start)
                = if n <=? length words then Some chunkDelay else None)
  /\ length expected = length words + 1
  /\ Forall (fun c => StreamChunk.id c = messageId) expected
  /\ emitted
       (Simulation.calls
          (ticks 3 (startSimulation (js "hello world") messageId chunkDelay)))
     = [ StreamChunk.mk messageId (js "hello") (Some false) None;
         StreamChunk.mk messageId (js " world") (Some false) None;
         StreamChunk.mk messageId (js "") (Some true) None ].
Proof.
  intros words final expected start.
  assert (Hlen : length (wordChunks messageId words) = length words)
    by apply wordChunks_length.
  split; [|split; [|split; [|split]]].
  - intros n. destruct (Nat.le_gt_cases n (length words)) as [Hn|Hn].
    + destruct (ticks_running content messageId chunkDelay Hn)
        as (_ & _ & _ & _ & _ & _ & He & _).
      subst expected start. fold words in He. rewrite He.
      rewrite firstn_app.
      replace (n - length (wordChunks messageId words)) with 0 by lia.
      simpl. now rewrite app_nil_r.
    + destruct (ticks_finished content messageId chunkDelay Hn)
        as (_ & _ & He & _).
      subst expected start. fold words in He. rewrite He.
      symmetry. apply firstn_all2. rewrite length_app; simpl.
      fold final. lia.
  - intros n. destruct (Nat.leb_spec n (length words)) as [Hn|Hn].
    + now destruct (ticks_running content messageId chunkDelay Hn)
        as (_ & _ & _ & _ & Ht & _).
    + now destruct (ticks_finished content messageId chunkDelay Hn)
        as (Ht & _).
  - subst expected. rewrite length_app, Hlen. reflexivity.
  - subst expected. apply Forall_app. split; [|repeat constructor].
    destruct words as [|w ws]; simpl; constructor; [reflexivity|].
    apply Forall_forall. intros c Hc.
    apply in_map_iff in Hc as (x & <- & _). reflexivity.
  - reflexivity.
Qed.

End SimulationClaim.

(* ------------------------------------------------------------------ *)
(** ** The incremental typing renderer *)

Section TypingFacts.
Import TypingAnimation.

(** One [appendText] under reduced motion: the buffer grows, the visible
    text is the buffer, and nothing else changes. *)
Lemma appendText_reduced enabled speed now newText h :
  appendText enabled true speed now newText h
  = Incremental.mk (Incremental.bufferRef h ++ newText)
      (Incremental.isTyping h)
      (Incremental.bufferRef h ++ newText)
      (Incremental.timeoutRef h) (Incremental.lastUpdateRef h)
      (Incremental.timers h) (Incremental.nextHandle h).
Proof. unfold appendText. now rewrite orb_true_r. Qed.

Lemma appendAll_reduced calls : forall h,
  let h' := appendAll true calls h in
  Incremental.displayedText h'
  = match calls with
    | [] => Incremental.displayedText h
    | _ :: _ => Incremental.bufferRef h ++ concat (map Call.newText calls)
    end
  /\ Incremental.bufferRef h'
     = Incremental.bufferRef h ++ concat (map Call.newText calls)
  /\ Incremental.timers h' = Incremental.timers h
  /\ Incremental.timeoutRef h' = Incremental.timeoutRef h
  /\ Incremental.isTyping h' = Incremental.isTyping h.
Proof.
  induction calls as [|c rest IH]; intros h.
  - simpl. rewrite app_nil_r. auto.
  - cbv zeta. unfold appendAll. simpl fold_left.
    fold (appendAll true rest
            (appendText (Call.enabled c) true (Call.speed c) (Call.now c)
               (Call.newText c) h)).
    destruct (IH (appendText (Call.enabled c) true (Call.speed c) (Call.now c)
                    (Call.newText c) h)) as (Hd & Hb & Ht & Hr & Hy).
    rewrite Hd, Hb, Ht, Hr, Hy, appendText_reduced. simpl.
    rewrite <- app_assoc.
    destruct rest; simpl; rewrite ?app_nil_r; auto.
Qed.

(** C8: with the reduced-motion preference detected, after every sequence
    of [appendText] calls on a fresh renderer - whatever [enabled], [speed]
    and the clock are in each call - the visible text is the concatenation
    of all appended text, no timer is armed, no timer handle is held, and
    [isTyping] is still false. *)
Theorem C8_reduced_motion_shows_text_at_once (calls : list Call.t) :
  let h := appendAll true calls initial in
  Incremental.displayedText h = concat (map Call.newText calls)
  /\ Incremental.bufferRef h = concat (map Call.newText calls)
  /\ Incremental.timers h = []
  /\ Incremental.timeoutRef h = None
  /\ Incremental.isTyping h = false.
Proof.
  destruct (appendAll_reduced calls initial) as (Hd & Hb & Ht & Hr & Hy).
  cbv zeta. rewrite Hd, Hb, Ht, Hr, Hy.
  destruct calls; simpl; auto.
Qed.

End TypingFacts.

(* ------------------------------------------------------------------ *)
(** ** Chat titles *)

Section TitleFacts.
Import ChatService.

Lemma trimStart_length s : length (Js.trimStart s) <= length s.
Proof.
  induction s as [|c r IH]; simpl; [lia|].
  destruct (Js.isWhite c); simpl; lia.
Qed.

Lemma trim_length s : length (Js.trim s) <= length s.
Proof.
  unfold Js.trim. rewrite length_rev.
  etransitivity; [apply trimStart_length|]. rewrite length_rev.
  apply trimStart_length.
Qed.

Lemma collapseFrom_length s : forall b,
  length (Js.collapseFrom b s) <= length s.
Proof.
  induction s as [|c r IH]; intros b; simpl; [lia|].
  pose proof (IH true). pose proof (IH false).
  destruct (Js.isWhite c); [destruct b|]; simpl; lia.
Qed.

(** Collapsing white space leaves a trailing ellipsis in place. *)
Lemma collapseFrom_ellipsis s : forall b,
  Js.collapseFrom b (s ++ js "...") = Js.collapseFrom b s ++ js "...".
Proof.
  induction s as [|c r IH]; intros b.
  - destruct b; reflexivity.
  - simpl. destruct (Js.isWhite c); [destruct b|]; now rewrite IH.
Qed.

(** The title of a list whose first user message is longer than 50 code
    units. *)
Lemma generateChatTitle_long messages m :
  find (fun msg => MessageType_eqb (Message.type msg) user) messages = Some m ->
  50 < length (Message.content m) ->
  generateChatTitle messages
  = Js.collapseWhite (Js.trim (Js.slice0 50 (Message.content m))) ++ js "...".
Proof.
  intros Hfind Hlen. unfold generateChatTitle. rewrite Hfind.
  destruct (Nat.ltb_spec 50 (length (Message.content m))) as [_|]; [|lia].
  unfold Js.collapseWhite. rewrite collapseFrom_ellipsis.
  destruct (Js.collapseFrom false _); reflexivity.
Qed.

(** C7: when the first user message of the list has exactly 80 code
    units, the title has at most 53 and ends in ["..."]; the title of the
    empty list is ["New Chat"]. *)
Theorem C7_generateChatTitle_long_and_empty
  (messages : list Message.t) (m : Message.t) :
  find (fun msg => MessageType_eqb (Message.type msg) user) messages = Some m ->
  length (Message.content m) = 80 ->
  length (generateChatTitle messages) <= 53
  /\ Js.endsWith (js "...") (generateChatTitle messages)
  /\ generateChatTitle [] = js "New Chat".
Proof.
  intros Hfind Hlen.
  rewrite (generateChatTitle_long _ Hfind) by lia.
  split; [|split; [eexists; reflexivity | reflexivity]].
  rewrite length_app. change (length (js "...")) with 3.
  pose proof (collapseFrom_length
                (Js.trim (Js.slice0 50 (Message.content m))) false) as H1.
  pose proof (trim_length (Js.slice0 50 (Message.content m))) as H2.
  pose proof (firstn_le_length 50 (Message.content m)) as H3.
  unfold Js.collapseWhite, Js.slice0 in *. lia.
Qed.

(** C7 at a list whose first user message has 80 code units. *)
Lemma C7_generateChatTitle_witness :
  length (generateChatTitle Examples.C7_messages) <= 53
  /\ Js.endsWith (js "...") (generateChatTitle Examples.C7_messages)
  /\ generateChatTitle [] = js "New Chat".
Proof.
  apply (@C7_generateChatTitle_long_and_empty Examples.C7_messages
           Examples.C7_long); reflexivity.
Defined.

End TitleFacts.

(* ------------------------------------------------------------------ *)
(** ** Content hashes and saved sessions *)

Section SessionFacts.
Import ChatService.

Lemma updateAt_length {A} (f : A -> A) l : forall i,
  length (updateAt i f l) = length l.
Proof.
  induction l as [|x l IH]; intros [|i]; simpl; auto.
Qed.



Lemma findExisting_nth h sessions : forall i s,
  findExisting h sessions = Ok (Some (i, s)) -> nth_error sessions i = Some s.
Proof.
  induction sessions as [|x rest IH]; intros i s; simpl; [discriminate|].
  destruct (generateContentHash (ChatSession.messages x)) as [h'|e];
    simpl; [|discriminate].
  destruct (Js.eqb h' h).
  - now intros [= <- <-].
  - destruct (findExisting h rest) as [[[j s']|]|e]; simpl; try discriminate.
    intros [= <- <-]. simpl. now apply IH.
Qed.


(** Hashing succeeds on Latin-1 content. *)
Lemma generateContentHash_latin1 messages :
  isLatin1 (serialize messages) = true ->
  generateContentHash messages
  = Ok (Js.slice0 16 (base64 (serialize messages))).
Proof. intros H. unfold generateContentHash, btoa. now rewrite H. Qed.


(** The first sixteen digits of a base64 text are the encoding of the
    first twelve bytes. *)
Lemma base64_first_16 s :
  12 <= length s -> Js.slice0 16 (base64 s) = base64 (firstn 12 s).
Proof.
  intros H.
  do 12 (destruct s as [|? s]; [simpl in H; lia|]).
  clear H. unfold Js.slice0.
  cbn [base64 firstn app]. reflexivity.
Qed.

(** The content hash reads nothing behind the twelfth code unit of the
    serialized list. *)
Lemma contentHash_reads_12_code_units a b :
  isLatin1 (serialize a) = true ->
  isLatin1 (serialize b) = true ->
  12 <= length (serialize a) ->
  firstn 12 (serialize a) = firstn 12 (serialize b) ->
  generateContentHash a = generateContentHash b.
Proof.
  intros Ha Hb Hlen Heq.
  assert (Hlenb : 12 <= length (serialize b)).
  { pose proof (length_firstn 12 (serialize a)) as H1.
    pose proof (length_firstn 12 (serialize b)) as H2.
    rewrite Heq in H1. lia. }
  rewrite !generateContentHash_latin1 by assumption.
  now rewrite !base64_first_16, Heq by assumption.
Qed.

(** The three ways a save of a non-empty list ends. *)
Lemma save_throws env first rest store e :
  (contentHash <- generateContentHash (first :: rest) ;;
   findExisting contentHash (getChatSessions store)) = Throw e ->
  saveChatSession env (first :: rest) store = (store, Throw e).
Proof. intros H. unfold saveChatSession. now rewrite H. Qed.

Lemma save_updates env first rest store h i s :
  generateContentHash (first :: rest) = Ok h ->
  findExisting h (getChatSessions store) = Ok (Some (i, s)) ->
  let updated :=
    updatedSession env (first :: rest) (last (first :: rest) first) s in
  saveChatSession env (first :: rest) store
  = (Sessions (updateAt i (fun _ => updated) (getChatSessions store)),
     Ok updated).
Proof.
  intros Hh Hf. unfold saveChatSession. rewrite Hh. simpl bind.
  now rewrite Hf.
Qed.

Lemma save_creates env first rest store h :
  generateContentHash (first :: rest) = Ok h ->
  findExisting h (getChatSessions store) = Ok None ->
  let session := newSession env (first :: rest) (last (first :: rest) first) in
  saveChatSession env (first :: rest) store
  = (Sessions (session :: getChatSessions store), Ok session).
Proof.
  intros Hh Hf. unfold saveChatSession. rewrite Hh. simpl bind.
  now rewrite Hf.
Qed.

End SessionFacts.

Section SessionClaims.
Import ChatService.






(** C9: two message lists whose contents differ have the same content
    hash - the base64 of the first twelve code units of the serialized
    list - so saving the second after the first into an empty store finds
    the first one's session, keeps its id and overwrites its messages, and
    the store still holds one session. *)
Theorem C9_hash_collision_overwrites_session :
  exists first second : list Message.t,
    map Message.content first <> map Message.content second
    /\ (exists h,
          generateContentHash first = Ok h
          /\ generateContentHash second = Ok h
          /\ h = base64 (firstn 12 (serialize first))
          /\ length h = 16)
    /\ forall env1 env2,
         exists s1 s2,
           saveChatSession env1 first NoItem = (Sessions [s1], Ok s1)
           /\ saveChatSession env2 second (Sessions [s1])
              = (Sessions [s2], Ok s2)
           /\ ChatSession.id s2 = ChatSession.id s1
           /\ ChatSession.messages s1 = first
           /\ ChatSession.messages s2 = second.
Proof.
  exists Examples.C9_first, Examples.C9_second.
  split; [vm_compute; discriminate|].
  split.
  - eexists. split; [vm_compute; reflexivity|].
    split; [vm_compute; reflexivity|]. split; reflexivity.
  - intros env1 env2. eexists. eexists.
    split; [reflexivity|]. split; [reflexivity|].
    split; [reflexivity|]. split; reflexivity.
Qed.

End SessionClaims.

(* ------------------------------------------------------------------ *)
(** ** The network-backed stream source *)

Section NetworkFacts.
Import ChatEvents StreamSSE Properties.

Variable JSON_parse : str -> option StreamChunk.t.

Lemma streaming_pushChunk data s calls :
  isDone data = false ->
  streaming s calls ->
  streaming (pushChunk data s) (calls ++ [onChunk data]).
Proof.
  intros Hd (H1 & H2 & H3 & H4). unfold streaming; simpl.
  repeat split; auto; apply Forall_app; split; auto.
Qed.

(** What one non-blank line does, given how its payload parses. *)
Lemma processLines_cons line rest s calls :
  processLines JSON_parse (line :: rest) s calls
  = if Js.eqb (Js.trim line) [] then processLines JSON_parse rest s calls
    else
      let handle (parsed : option StreamChunk.t) :=
        match parsed with
        | None => processLines JSON_parse rest s calls
        | Some data =>
            if isDone data
            then (true, setIsStreaming false (pushChunk data s),
                  (calls ++ [onChunk data]) ++ [onComplete])
            else processLines JSON_parse rest (pushChunk data s)
                   (calls ++ [onChunk data])
        end in
      if Js.startsWith (js "data: ") line then
        if Js.eqb (skipn 6 line) (js "[DONE]")
        then (true, setIsStreaming false s, calls ++ [onComplete])
        else handle (JSON_parse (skipn 6 line))
      else handle (JSON_parse line).
Proof. reflexivity. Qed.

(** Lines that do not end the stream keep it streaming. *)
Lemma processLines_streaming lines : forall s calls s' calls',
  streaming s calls ->
  processLines JSON_parse lines s calls = (false, s', calls') ->
  streaming s' calls'.
Proof.
  induction lines as [|line rest IH]; intros s calls s' calls' Hs.
  - simpl. now intros [= <- <-].
  - rewrite processLines_cons.
    destruct (Js.eqb (Js.trim line) []); [now apply IH|].
    assert (Hparsed : forall parsed,
      match parsed with
      | Some data =>
          if isDone data
          then (true, setIsStreaming false (pushChunk data s),
                (calls ++ [onChunk data]) ++ [onComplete])
          else processLines JSON_parse rest (pushChunk data s)
                 (calls ++ [onChunk data])
      | None => processLines JSON_parse rest s calls
      end = (false, s', calls') -> streaming s' calls').
    { intros [data|]; [|now apply IH].
      destruct (isDone data) eqn:Hd; [discriminate|].
      apply IH. now apply streaming_pushChunk. }
    cbv zeta.
    destruct (Js.startsWith (js "data: ") line).
    + destruct (Js.eqb (skipn 6 line) (js "[DONE]")); [discriminate|].
      apply Hparsed.
    + apply Hparsed.
Qed.

(** A read loop left awaiting is still streaming, and a rejection of the
    pending read is thrown from exactly that state. *)
Lemma readLoop_awaiting reads : forall buffer s calls buffer' s' calls',
  streaming s calls ->
  readLoop JSON_parse reads buffer s calls = Awaiting buffer' s' calls' ->
  streaming s' calls'
  /\ forall e,
       readLoop JSON_parse (reads ++ [ReadRejects e]) buffer s calls
       = Threw e s' calls'.
Proof.
  induction reads as [|[|text|e0] rest IH];
    intros buffer s calls buffer' s' calls' Hs; simpl; try discriminate.
  - intros [= <- <- <-]. auto.
  - destruct (processLines JSON_parse
                (removelast (Js.split 10 (buffer ++ text))) s calls)
      as [[[|] s1] calls1] eqn:Hp; [discriminate|].
    intros Hloop.
    apply (IH _ _ _ _ _ _ (processLines_streaming _ Hs Hp) Hloop).
Qed.

Lemma freshState_streaming : streaming (freshState true) [].
Proof. unfold streaming; simpl. repeat split; constructor. Qed.

(** A stream in flight is streaming, and rejecting its pending promise
    runs the [catch] block on its state. *)
Lemma startStream_inflight net s calls :
  startStream JSON_parse net = InFlight s calls ->
  streaming s calls
  /\ forall e,
       startStream JSON_parse (thenRejects e net)
       = settle (catchBlock e s calls).
Proof.
  destruct net as [|e0|ok status [reads|]]; simpl.
  - intros [= <- <-]. split; [apply freshState_streaming | reflexivity].
  - discriminate.
  - destruct ok; simpl; [|discriminate].
    destruct (readLoop JSON_parse reads [] (freshState true) [])
      as [s1 c1|s1 c1|e1 s1 c1|b1 s1 c1] eqn:Hloop; try discriminate.
    intros [= <- <-].
    destruct (readLoop_awaiting _ _ freshState_streaming Hloop) as [Hs Hrej].
    split; [exact Hs|]. intros e. now rewrite Hrej.
  - destruct ok; discriminate.
Qed.

Lemma streaming_not_endedWithDone s calls extra :
  streaming s calls ->
  ~ endedWithDone (setFailed extra s) (calls ++ [onError extra]).
Proof.
  intros (_ & _ & Hc & Hcalls) [(c & Hin & Hd) | [(c & Hin & Hd) | Hin]].
  - simpl in Hin. rewrite Forall_forall in Hc. specialize (Hc _ Hin).
    unfold isDone in Hc. rewrite Hd in Hc. discriminate.
  - apply in_app_or in Hin as [Hin | [Hin | []]]; [|discriminate].
    rewrite Forall_forall in Hcalls. specialize (Hcalls _ Hin).
    simpl in Hcalls. unfold isDone in Hcalls. rewrite Hd in Hcalls.
    discriminate.
  - apply in_app_or in Hin as [Hin | [Hin | []]]; [|discriminate].
    rewrite Forall_forall in Hcalls. exact (Hcalls _ Hin).
Qed.

End NetworkFacts.

Section NetworkClaims.
Import ChatEvents ChatProvider StreamSSE Properties.

(** C6, as stated, fails in its last clause: a fetch that rejects with a
    [TypeError] leaves the hook with the error message and
    [isStreaming = false], but with no chunk carrying [done: true] and no
    completion call - only [onError] is called. *)
Lemma C6_failure_has_no_done : ~ failureEndsWithDone Examples.C6_parse.
Proof.
  intros H.
  destruct (H FetchPending (freshState true) []
              (js "TypeError") (js "Failed to fetch") eq_refl)
    as (s' & calls' & Hrun & _ & _ & Hdone).
  - vm_compute. discriminate.
  - vm_compute in Hrun. injection Hrun as <- <-.
    destruct Hdone as [(c & [] & _) | [(c & Hin & _) | Hin]].
    + destruct Hin as [Hin | []]. discriminate Hin.
    + destruct Hin as [Hin | []]. discriminate Hin.
Qed.

(** C6, amended: for a network stream in flight, cancelling it through the
    abort path leaves [isStreaming = false] and [error] unset and calls no
    callback; a rejection by any [Error] not named [AbortError] sets
    [isStreaming = false], sets [error] to its message (to
    ['Stream failed'] when the message is empty) and hands that text to
    [onError]; a thrown value that is no [Error] does the same with
    ['Unknown stream error']. The hook state has no [done] field, and a
    failure neither delivers a chunk with [done: true] nor calls
    [onComplete]; [done = true] appears in the chat store when the message
    is dispatched there as [errorStreaming]. *)
Theorem C6_abort_is_silent_failure_is_reported
  (JSON_parse : str -> option StreamChunk.t)
  (net : Network) (s : StreamState.t) (calls : list Callback) :
  startStream JSON_parse net = InFlight s calls ->
  (forall abortMessage,
     cancelStream abortMessage (InFlight s calls)
     = Settled (setIsStreaming false s) calls
     /\ startStream JSON_parse
          (thenRejects (ErrorObject (js "AbortError") abortMessage) net)
        = Settled (setIsStreaming false s) calls
     /\ StreamState.isStreaming (setIsStreaming false s) = false
     /\ StreamState.error (setIsStreaming false s) = None)
  /\ (forall name message,
        name <> js "AbortError" ->
        let m := Js.orElse message (js "Stream failed") in
        startStream JSON_parse (thenRejects (ErrorObject name message) net)
        = Settled (setFailed m s) (calls ++ [onError m])
        /\ StreamState.isStreaming (setFailed m s) = false
        /\ StreamState.error (setFailed m s) = Some m
        /\ (message <> [] -> m = message)
        /\ ~ endedWithDone (setFailed m s) (calls ++ [onError m]))
  /\ startStream JSON_parse (thenRejects NotAnError net)
     = Settled (setFailed (js "Unknown stream error") s)
         (calls ++ [onError (js "Unknown stream error")])
  /\ (forall now store m,
        let store' := chatReducer now store (errorStreaming m) in
        StreamingState.done (ChatState.streaming store') = true
        /\ StreamingState.error (ChatState.streaming store') = Some m
        /\ StreamingState.isStreaming (ChatState.streaming store') = false).
Proof.
  intros Hrun.
  destruct (startStream_inflight _ _ Hrun) as [Hs Hrej].
  pose proof Hs as (Hi & He & _).
  split; [|split; [|split]].
  - intros abortMessage. split; [reflexivity|].
    split; [rewrite Hrej; reflexivity|]. simpl. auto.
  - intros name message Hname m.
    apply Js_eqb_neq in Hname.
    split.
    + rewrite Hrej. unfold catchBlock. rewrite Hname. reflexivity.
    + split; [reflexivity|]. split; [reflexivity|].
      split; [destruct message; [congruence | reflexivity]|].
      now apply streaming_not_endedWithDone.
  - rewrite Hrej. reflexivity.
  - intros now store m. simpl. auto.
Qed.

(** C6 at a response that has delivered one frame: an abort and a network
    error while the third read is pending. *)
Lemma C6_abort_and_failure_witness :
  startStream Examples.C6_parse
    (thenRejects (ErrorObject (js "AbortError") (js "The user aborted a request."))
       Examples.C6_net)
  = Settled (setIsStreaming false Examples.C6_inflight) Examples.C6_calls
  /\ startStream Examples.C6_parse
       (thenRejects (ErrorObject (js "TypeError") (js "network error"))
          Examples.C6_net)
     = Settled (setFailed (js "network error") Examples.C6_inflight)
         (Examples.C6_calls ++ [onError (js "network error")]).
Proof.
  destruct (@C6_abort_is_silent_failure_is_reported Examples.C6_parse
              Examples.C6_net Examples.C6_inflight Examples.C6_calls)
    as (Habort & Hfail & _).
  - vm_compute. reflexivity.
  - split.
    + exact (proj1 (proj2 (Habort (js "The user aborted a request.")))).
    + refine (proj1 (Hfail (js "TypeError") (js "network error") _)).
      vm_compute. discriminate.
Defined.

End NetworkClaims.

(* ================================================================== *)
(** * Further properties of the code *)

(* ------------------------------------------------------------------ *)
(** ** The reducer: shape of the timeline, separation of the two halves *)

Section ReducerInvariants.
Import ChatEvents ChatProvider Invariants.

Lemma map_id_preserved (f : ThoughtStep.t -> ThoughtStep.t) steps :
  (forall step, ThoughtStep.id (f step) = ThoughtStep.id step) ->
  map ThoughtStep.id (map f steps) = map ThoughtStep.id steps.
Proof.
  intros Hf. rewrite map_map. apply map_ext. exact Hf.
Qed.

Lemma labels_preserved (f : ThoughtStep.t -> ThoughtStep.t) steps :
  (forall step, ThoughtStep.label step <> [] -> ThoughtStep.label (f step) <> []) ->
  Forall (fun step => ThoughtStep.label step <> []) steps ->
  Forall (fun step => ThoughtStep.label step <> []) (map f steps).
Proof.
  intros Hf H. induction H; simpl; constructor; auto.
Qed.

Lemma optOrElse_nonempty label fallback :
  fallback <> [] -> Js.optOrElse label fallback <> [].
Proof.
  intros Hf. destruct label as [[|c l]|]; simpl; auto. discriminate.
Qed.

Lemma chatReducer_timelineShape now s a :
  timelineShape s -> timelineShape (chatReducer now s a).
Proof.
  intros [Hids Hlabels]. unfold timelineShape.
  destruct a; simpl; try (split; assumption).
  - split.
    + rewrite map_id_preserved; [exact Hids|].
      intros step. now destruct (ThoughtStepId_eqb _ _).
    + apply labels_preserved; [|exact Hlabels].
      intros step Hl. destruct (ThoughtStepId_eqb _ _); simpl; auto.
      now apply optOrElse_nonempty.
  - split.
    + rewrite map_id_preserved; [exact Hids|].
      intros step. now destruct (ThoughtStepId_eqb _ _).
    + apply labels_preserved; [|exact Hlabels].
      intros step Hl. now destruct (ThoughtStepId_eqb _ _).
  - split.
    + rewrite map_id_preserved; [exact Hids|].
      intros step. now destruct (ThoughtStepId_eqb _ _).
    + apply labels_preserved; [|exact Hlabels].
      intros step Hl. now destruct (ThoughtStepId_eqb _ _).
  - split; [reflexivity|]. repeat constructor; discriminate.
Qed.

(** X1: in every reachable state the timeline is the five default steps
    in their order, each with a non-empty label (an empty label passed to
    [startStep] falls back to the label in place); so no step has id
    ['tool'], and [startStep('tool')] never changes a step. *)
Theorem timeline_keeps_its_shape (s : ChatState.t) :
  reachable s ->
  timelineShape s
  /\ forall now label toolName,
       ChatThinkingState.steps
         (ChatState.thinking (chatReducer now s (START_STEP tool label toolName)))
       = ChatThinkingState.steps (ChatState.thinking s).
Proof.
  intros Hr.
  assert (Hshape : timelineShape s).
  { induction Hr as [|s now a _ IH].
    - split; [reflexivity|]. repeat constructor; discriminate.
    - now apply chatReducer_timelineShape. }
  split; [exact Hshape|].
  intros now label toolName. simpl.
  destruct Hshape as [Hids _].
  rewrite <- (map_id (ChatThinkingState.steps (ChatState.thinking s))) at 2.
  apply map_ext_in. intros step Hin.
  destruct (ThoughtStepId_eqb (ThoughtStep.id step) tool) eqn:E; [|reflexivity].
  apply ThoughtStepId_eqb_eq in E.
  apply (in_map ThoughtStep.id) in Hin. rewrite Hids, E in Hin.
  simpl in Hin. repeat (destruct Hin as [Hin|Hin]; [discriminate|]).
  destruct Hin.
Qed.

(** X1 at the timeline of the example: started and completed once. *)
Lemma timeline_keeps_its_shape_witness :
  map ThoughtStep.id
    (ChatThinkingState.steps (ChatState.thinking Examples.C2_completed))
  = [understand; plan; retrieve; compose; finalize].
Proof.
  assert (Hr : reachable Examples.C2_completed)
    by (do 2 constructor; constructor).
  exact (proj1 (proj1 (timeline_keeps_its_shape Hr))).
Defined.

Lemma dispatchAll_halves acts : forall s1 s2 s3,
  ChatState.thinking s1 = ChatState.thinking s2 ->
  ChatState.streaming s1 = ChatState.streaming s3 ->
  ChatState.thinking (dispatchAll s1 acts)
  = ChatState.thinking (dispatchAll s2 (thinkingOnly acts))
  /\ ChatState.streaming (dispatchAll s1 acts)
     = ChatState.streaming (dispatchAll s3 (streamingOnly acts)).
Proof.
  induction acts as [|[now a] rest IH]; intros s1 s2 s3 Ht Hs; [now split|].
  unfold thinkingOnly, streamingOnly in *. simpl filter.
  rewrite dispatchAll_cons.
  destruct a; simpl negb; cbv iota; rewrite ?dispatchAll_cons;
    apply IH; simpl; congruence.
Qed.

(** X2: the two halves of the store do not interfere. After any sequence
    of actions, [thinking] is what the thinking actions alone produce and
    [streaming] is what the streaming actions alone produce. *)
Theorem thinking_and_streaming_do_not_interfere
  (s : ChatState.t) (acts : list (Z * ChatAction)) :
  ChatState.thinking (dispatchAll s acts)
  = ChatState.thinking (dispatchAll s (thinkingOnly acts))
  /\ ChatState.streaming (dispatchAll s acts)
     = ChatState.streaming (dispatchAll s (streamingOnly acts)).
Proof. now apply dispatchAll_halves. Qed.

(** X3: in every reachable state, a store that is marked streaming knows
    which message it streams: [isStreaming] implies that [messageId] is
    set. *)
Theorem streaming_has_a_message (s : ChatState.t) :
  reachable s ->
  StreamingState.isStreaming (ChatState.streaming s) = true ->
  exists id, StreamingState.messageId (ChatState.streaming s) = Some id.
Proof.
  induction 1 as [|s now a _ IH]; [discriminate|].
  destruct a; simpl; try exact IH; try discriminate.
  intros _. eauto.
Qed.

(** X3 during a stream that has received its final chunk. *)
Lemma streaming_has_a_message_witness :
  exists id,
    StreamingState.messageId (ChatState.streaming Examples.C3_finished)
    = Some id.
Proof.
  apply streaming_has_a_message; [|reflexivity].
  do 2 constructor; constructor.
Defined.

End ReducerInvariants.

(* ------------------------------------------------------------------ *)
(** ** The simulated source: what it reconstructs, what cancelling stops *)

Section SimulationMore.
Import ChatEvents ChatProvider StreamSSE StreamControl EnhancedChatPanel
  Properties.

Lemma split_nonempty sep s : Js.split sep s <> [].
Proof.
  destruct s as [|c r]; simpl; [discriminate|].
  destruct (N.eqb c sep); [discriminate|].
  destruct (Js.split sep r); discriminate.
Qed.

(** Joining what [split] returns gives the string back. *)
Lemma join_split sep s : Js.join [sep] (Js.split sep s) = s.
Proof.
  induction s as [|c r IH]; [reflexivity|]. simpl.
  destruct (N.eqb_spec c sep) as [->|Hc].
  - pose proof (split_nonempty sep r) as Hne.
    destruct (Js.split sep r) as [|w ws]; [congruence|].
    change (Js.join [sep] ([] :: w :: ws))
      with ([] ++ [sep] ++ Js.join [sep] (w :: ws)).
    now rewrite IH.
  - pose proof (split_nonempty sep r) as Hne.
    destruct (Js.split sep r) as [|w ws]; [congruence|].
    destruct ws as [|w2 ws].
    + simpl in *. now rewrite IH.
    + change (Js.join [sep] ((c :: w) :: w2 :: ws))
        with (c :: (w ++ [sep] ++ Js.join [sep] (w2 :: ws))).
      change (Js.join [sep] (w :: w2 :: ws))
        with (w ++ [sep] ++ Js.join [sep] (w2 :: ws)) in IH.
      now rewrite IH.
Qed.

Lemma deltas_of_later_words (rest : list str) :
  concat (map (fun x : str => 32%N :: x) rest)
  = match rest with
    | [] => []
    | _ :: _ => 32%N :: Js.join [32%N] rest
    end.
Proof.
  induction rest as [|w rest IH]; [reflexivity|].
  change (concat (map (fun x : str => 32%N :: x) (w :: rest)))
    with ((32%N :: w) ++ concat (map (fun x : str => 32%N :: x) rest)).
  rewrite IH. destruct rest as [|w2 rest]; [now rewrite app_nil_r|].
  reflexivity.
Qed.

(** The deltas of the word chunks, concatenated, are the words joined by
    single spaces. *)
Lemma deltas_of_wordChunks messageId W :
  concat (map StreamChunk.delta (wordChunks messageId W))
  = Js.join (js " ") W.
Proof.
  destruct W as [|w rest]; [reflexivity|].
  change (concat (map StreamChunk.delta (wordChunks messageId (w :: rest))))
    with (w ++ concat (map StreamChunk.delta
                         (map (fun x => StreamChunk.mk messageId (js " " ++ x)
                                          (Some false) None) rest))).
  rewrite map_map.
  change (map (fun x : str =>
                 StreamChunk.delta
                   (StreamChunk.mk messageId (js " " ++ x) (Some false) None))
            rest)
    with (map (fun x : str => 32%N :: x) rest).
  rewrite deltas_of_later_words.
  destruct rest; [now rewrite app_nil_r | reflexivity].
Qed.

Lemma sendNextChunk_content sim :
  StreamState.content (Simulation.state sim)
  = concat (map StreamChunk.delta (StreamState.chunks (Simulation.state sim))) ->
  StreamState.content (Simulation.state (sendNextChunk sim))
  = concat (map StreamChunk.delta
              (StreamState.chunks (Simulation.state (sendNextChunk sim)))).
Proof.
  intros H. unfold sendNextChunk.
  destruct (length (Simulation.words sim) <=? Simulation.currentIndex sim);
    simpl; rewrite map_app, concat_app, H; simpl; now rewrite ?app_nil_r.
Qed.

Lemma ticks_content n : forall sim,
  StreamState.content (Simulation.state sim)
  = concat (map StreamChunk.delta (StreamState.chunks (Simulation.state sim))) ->
  StreamState.content (Simulation.state (ticks n sim))
  = concat (map StreamChunk.delta
              (StreamState.chunks (Simulation.state (ticks n sim)))).
Proof.
  induction n as [|n IH]; intros sim H; [exact H|].
  simpl. apply IH. unfold timerFires.
  destruct (Simulation.timer sim); [now apply sendNextChunk_content | exact H].
Qed.

(** The calls made after [k] ticks. *)
Lemma ticks_calls content messageId chunkDelay k :
  Simulation.calls (ticks k (startSimulation content messageId chunkDelay))
  = if k <=? length (Js.split 32 content)
    then map onChunk (firstn k (wordChunks messageId (Js.split 32 content)))
    else map onChunk (wordChunks messageId (Js.split 32 content))
         ++ [onChunk (finalChunk messageId); onComplete].
Proof.
  set (W := Js.split 32 content).
  set (start := startSimulation content messageId chunkDelay).
  assert (Hrun : forall j, j <= length W ->
            Simulation.calls (ticks j start)
            = map onChunk (firstn j (wordChunks messageId W))).
  { induction j as [|j IH]; intros Hj; [reflexivity|].
    assert (Hlt : j < length W) by lia.
    rewrite ticks_succ.
    rewrite (@firstn_snoc _ _ _ _ (@wordChunks_nth messageId W j Hlt)).
    rewrite map_app, <- IH by lia.
    destruct (ticks_running content messageId chunkDelay (k := j))
      as (Hw & Hi & Hm & Hd & Ht & _); [fold W; lia|].
    fold W start in Hw, Hi, Hm, Hd, Ht.
    unfold timerFires, sendNextChunk. rewrite Ht, Hw, Hi, Hm.
    destruct (Nat.leb_spec (length W) j) as [|_]; [lia|].
    reflexivity. }
  destruct (Nat.leb_spec k (length W)) as [Hk|Hk]; [now apply Hrun|].
  replace k with (S (length W) + (k - S (length W))) by lia.
  generalize (k - S (length W)) as m. intros m.
  assert (Hfin : finished messageId W (ticks (S (length W)) start)).
  { apply (ticks_finished content messageId chunkDelay). fold W. lia. }
  assert (Hadd : forall a b sim, ticks (a + b) sim = ticks b (ticks a sim)).
  { induction a as [|a IHa]; intros b sim; [reflexivity|]. simpl. apply IHa. }
  rewrite Hadd, (finished_stays m Hfin), ticks_succ.
  destruct (ticks_running content messageId chunkDelay (k := length W))
    as (Hw & Hi & Hm & Hd & Ht & _); [fold W; lia|].
  fold W start in Hw, Hi, Hm, Hd, Ht.
  unfold timerFires, sendNextChunk. rewrite Ht, Hw, Hi, Hm.
  rewrite Nat.leb_refl. simpl. rewrite (Hrun (length W)) by lia.
  now rewrite <- (wordChunks_length messageId W), firstn_all.
Qed.

(** X4: once the simulation has sent its final chunk, the text the hook
    has accumulated, and the deltas it has handed to [onChunk] taken
    together, are exactly the string it was started with - spaces at the
    ends and runs of spaces included; the hook is no longer streaming and
    holds no error. *)
Theorem simulation_reconstructs_content
  (content messageId : str) (chunkDelay : Z) (n : nat) :
  length (Js.split 32 content) < n ->
  let sim := ticks n (startSimulation content messageId chunkDelay) in
  StreamState.content (Simulation.state sim) = content
  /\ concat (map StreamChunk.delta (emitted (Simulation.calls sim))) = content
  /\ StreamState.isStreaming (Simulation.state sim) = false
  /\ StreamState.error (Simulation.state sim) = None.
Proof.
  intros Hn sim.
  destruct (ticks_finished content messageId chunkDelay Hn)
    as (_ & Hs & He & Hc).
  fold sim in Hs, He, Hc.
  assert (Hdeltas :
    concat (map StreamChunk.delta
              (wordChunks messageId (Js.split 32 content)
               ++ [finalChunk messageId])) = content).
  { rewrite map_app, concat_app, deltas_of_wordChunks. simpl.
    rewrite app_nil_r. apply (join_split 32). }
  split; [|split; [|split]].
  - subst sim. rewrite ticks_content by reflexivity.
    fold (ticks n (startSimulation content messageId chunkDelay)).
    now rewrite Hc.
  - now rewrite He.
  - exact Hs.
  - subst sim.
    assert (Herr : forall m s,
      StreamState.error (Simulation.state s) = None ->
      StreamState.error (Simulation.state (ticks m s)) = None).
    { induction m as [|m IH]; intros s H; [exact H|]. simpl. apply IH.
      unfold timerFires. destruct (Simulation.timer s); [|exact H].
      unfold sendNextChunk.
      destruct (length (Simulation.words s) <=? Simulation.currentIndex s);
        exact H. }
    now apply Herr.
Qed.

(** X4 for a string with a leading space and a double space. *)
Lemma simulation_reconstructs_content_witness :
  StreamState.content
    (Simulation.state
       (ticks 5 (startSimulation (js " a  b") (js "m1") 40%Z)))
  = js " a  b".
Proof.
  refine (proj1 (@simulation_reconstructs_content (js " a  b") (js "m1")
                   40%Z 5 _)).
  vm_compute. reflexivity.
Defined.

End SimulationMore.

Section SimulationWired.
Import ChatEvents ChatProvider StreamSSE StreamControl EnhancedChatPanel
  Properties.

Lemma deliver_cons store t call rest :
  deliver store ((t, call) :: rest)
  = deliver (dispatchAll store (map (fun a => (t, a)) (dispatched call))) rest.
Proof. unfold deliver. simpl flat_map. apply dispatchAll_app. Qed.

Lemma deliver_app store stamped1 stamped2 :
  deliver store (stamped1 ++ stamped2)
  = deliver (deliver store stamped1) stamped2.
Proof. unfold deliver. rewrite flat_map_app. apply dispatchAll_app. Qed.

(** Delivering callbacks extends the store's content by the deltas of the
    chunks among them and keeps the message id. *)
Lemma deliver_content stamped : forall store,
  StreamingState.content (ChatState.streaming (deliver store stamped))
  = StreamingState.content (ChatState.streaming store)
    ++ concat (map StreamChunk.delta (emitted (map snd stamped)))
  /\ StreamingState.messageId (ChatState.streaming (deliver store stamped))
     = StreamingState.messageId (ChatState.streaming store).
Proof.
  induction stamped as [|[t call] rest IH]; intros store.
  - simpl. now rewrite app_nil_r.
  - rewrite deliver_cons.
    destruct (IH (dispatchAll store (map (fun a => (t, a)) (dispatched call))))
      as [Hc Hm].
    rewrite Hc, Hm. destruct call; simpl; [|now split..].
    now rewrite <- app_assoc.
Qed.

Lemma wordChunks_no_error messageId W :
  Forall (fun c => StreamChunk.done c = Some false
                   /\ StreamChunk.error c = None)
    (wordChunks messageId W).
Proof.
  destruct W as [|w ws]; simpl; constructor; [now split|].
  apply Forall_forall. intros c Hc.
  apply in_map_iff in Hc as (x & <- & _). now split.
Qed.

(** X5: the simulated stream as the chat panel wires it to the store.
    After [startStreaming(messageId)], delivering every callback of a
    simulation that has run to its end - at whatever clock readings -
    leaves the store's streaming state not streaming, done, without error,
    for that message id, and with exactly the simulated string as content;
    the [finalize] step of the timeline is [done]. *)
Theorem delivered_simulation_fills_the_store
  (content messageId : str) (chunkDelay : Z) (n : nat)
  (store : ChatState.t) (t0 : Z) (stamped : list (Z * Callback)) :
  length (Js.split 32 content) < n ->
  map snd stamped
  = Simulation.calls (ticks n (startSimulation content messageId chunkDelay)) ->
  let store' :=
    deliver (chatReducer t0 store (START_STREAMING messageId)) stamped in
  ChatState.streaming store'
  = StreamingState.mk false (Some messageId) content None true
  /\ forall step,
       In step (ChatThinkingState.steps (ChatState.thinking store')) ->
       ThoughtStep.id step = finalize ->
       ThoughtStep.status step = done.
Proof.
  intros Hn Hcalls store'.
  rewrite ticks_calls in Hcalls.
  destruct (Nat.leb_spec n (length (Js.split 32 content))) as [|_]; [lia|].
  set (W := Js.split 32 content) in *.
  apply map_eq_app in Hcalls as (front & back & Hst & Hfront & Hback).
  destruct back as [|[t1 c1] [|[t2 c2] [|? ?]]]; try discriminate Hback.
  simpl in Hback. injection Hback as Hc1 Hc2. subst c1 c2.
  assert (Hfinal : store'
    = chatReducer t2
        (chatReducer t2
           (chatReducer t1
              (deliver (chatReducer t0 store (START_STREAMING messageId)) front)
              (APPEND_CHUNK (finalChunk messageId)))
           FINISH_STREAMING)
        (COMPLETE_STEP finalize)).
  { subst store'. rewrite Hst, deliver_app. reflexivity. }
  destruct (deliver_content front
              (chatReducer t0 store (START_STREAMING messageId))) as [Hc Hm].
  rewrite Hfront in Hc.
  assert (Hem : forall l, emitted (map onChunk l) = l).
  { induction l as [|c l IH]; simpl; [reflexivity | now rewrite IH]. }
  rewrite Hem, deltas_of_wordChunks in Hc. unfold W in Hc.
  rewrite (join_split 32) in Hc. simpl in Hc, Hm.
  split.
  - rewrite Hfinal. simpl. rewrite Hc, Hm, app_nil_r. reflexivity.
  - rewrite Hfinal. simpl. intros step Hin Hid.
    apply in_map_iff in Hin as (step0 & <- & _).
    destruct (ThoughtStepId_eqb (ThoughtStep.id step0) finalize) eqn:E;
      [reflexivity|].
    apply ThoughtStepId_eqb_eq in Hid. congruence.
Qed.

(** X5 for ["hello world"], delivered at clock readings 1 to 4. *)
Lemma delivered_simulation_witness :
  ChatState.streaming
    (deliver (chatReducer 0%Z initialState (START_STREAMING (js "m1")))
       (combine [1%Z; 2%Z; 3%Z; 4%Z]
          (Simulation.calls
             (ticks 3 (startSimulation (js "hello world") (js "m1") 40%Z)))))
  = StreamingState.mk false (Some (js "m1")) (js "hello world") None true.
Proof.
  refine (proj1 (@delivered_simulation_fills_the_store (js "hello world")
                   (js "m1") 40%Z 3 initialState 0%Z _ _ _)).
  - vm_compute. reflexivity.
  - vm_compute. reflexivity.
Defined.

(** X6: cancelling a simulation before its final chunk stops it for good.
    Whatever number of timer ticks follows, nothing changes: the chunks
    handed out are the first [n] word chunks, none of them carries
    [done: true], [onComplete] has not been and will not be called, no
    timer is armed and the hook is not streaming. *)
Theorem cancelled_simulation_stays_silent
  (content messageId : str) (chunkDelay : Z) (n m : nat) :
  n <= length (Js.split 32 content) ->
  let sim :=
    cancelSimulation (ticks n (startSimulation content messageId chunkDelay)) in
  ticks m sim = sim
  /\ Simulation.timer sim = None
  /\ StreamState.isStreaming (Simulation.state sim) = false
  /\ Simulation.calls sim
     = map onChunk (firstn n (wordChunks messageId (Js.split 32 content)))
  /\ ~ In onComplete (Simulation.calls sim)
  /\ Forall (fun c => StreamChunk.done c = Some false)
       (emitted (Simulation.calls sim)).
Proof.
  intros Hn sim.
  assert (Hcalls : Simulation.calls sim
    = map onChunk (firstn n (wordChunks messageId (Js.split 32 content)))).
  { subst sim. unfold cancelSimulation. simpl. rewrite ticks_calls.
    destruct (Nat.leb_spec n (length (Js.split 32 content))); [reflexivity|lia]. }
  assert (Hem : forall l, emitted (map onChunk l) = l).
  { induction l as [|c l IH]; simpl; [reflexivity | now rewrite IH]. }
  split; [|split; [|split; [|split; [|split]]]]; try reflexivity.
  - induction m as [|m IH]; [reflexivity|]. simpl. exact IH.
  - exact Hcalls.
  - rewrite Hcalls. intros Hin. apply in_map_iff in Hin as (c & Hc & _).
    discriminate Hc.
  - rewrite Hcalls, Hem.
    apply Forall_forall. intros c Hin.
    pose proof (wordChunks_no_error messageId (Js.split 32 content)) as Hall.
    rewrite Forall_forall in Hall.
    assert (Hin' : In c (wordChunks messageId (Js.split 32 content))).
    { rewrite <- (firstn_skipn n). apply in_or_app. now left. }
    now destruct (Hall c Hin').
Qed.

(** X6 for ["hello world"], cancelled after its first word. *)
Lemma cancelled_simulation_witness :
  emitted
    (Simulation.calls
       (ticks 10
          (cancelSimulation
             (ticks 1 (startSimulation (js "hello world") (js "m1") 40%Z)))))
  = [StreamChunk.mk (js "m1") (js "hello") (Some false) None].
Proof.
  destruct (@cancelled_simulation_stays_silent (js "hello world") (js "m1")
              40%Z 1 10) as (Hstay & _).
  - vm_compute. lia.
  - cbv zeta in Hstay. rewrite Hstay. reflexivity.
Defined.

End SimulationWired.

(* ------------------------------------------------------------------ *)
(** ** The network source: how it ends, which lines count, framing *)

Section NetworkShape.
Import ChatEvents StreamSSE StreamControl NetworkInvariants.

Variable JSON_parse : str -> option StreamChunk.t.

Lemma live_pushChunk data s calls :
  live s calls -> live (pushChunk data s) (calls ++ [onChunk data]).
Proof.
  intros (H1 & H2 & H3 & H4). unfold live, accumulated in *. simpl.
  rewrite !map_app, concat_app, H3, H4. simpl. rewrite app_nil_r. auto.
Qed.

Lemma live_completed s calls :
  live s calls -> completed (setIsStreaming false s) (calls ++ [onComplete]).
Proof.
  intros (H1 & H2 & H3 & H4). unfold completed, accumulated in *. simpl.
  rewrite H4. auto.
Qed.

Lemma processLines_shape lines : forall s calls,
  live s calls ->
  match processLines JSON_parse lines s calls with
  | (true, s', calls') => completed s' calls'
  | (false, s', calls') => live s' calls'
  end.
Proof.
  induction lines as [|line rest IH]; intros s calls Hl; [exact Hl|].
  rewrite processLines_cons.
  destruct (Js.eqb (Js.trim line) []); [now apply IH|].
  assert (Hparsed : forall parsed,
    match
      match parsed with
      | Some data =>
          if isDone data
          then (true, setIsStreaming false (pushChunk data s),
                (calls ++ [onChunk data]) ++ [onComplete])
          else processLines JSON_parse rest (pushChunk data s)
                 (calls ++ [onChunk data])
      | None => processLines JSON_parse rest s calls
      end
    with
    | (true, s', calls') => completed s' calls'
    | (false, s', calls') => live s' calls'
    end).
  { intros [data|]; [|now apply IH].
    destruct (isDone data).
    - now apply live_completed, live_pushChunk.
    - now apply IH, live_pushChunk. }
  cbv zeta.
  destruct (Js.startsWith (js "data: ") line); [|apply Hparsed].
  destruct (Js.eqb (skipn 6 line) (js "[DONE]")); [|apply Hparsed].
  now apply live_completed.
Qed.

Lemma readLoop_shape reads : forall buffer s calls,
  live s calls ->
  match readLoop JSON_parse reads buffer s calls with
  | Returned s' calls' => completed s' calls'
  | Broke s' calls' | Threw _ s' calls' | Awaiting _ s' calls' =>
      live s' calls'
  end.
Proof.
  induction reads as [|[|text|e] rest IH]; intros buffer s calls Hl;
    try exact Hl.
  simpl.
  pose proof (processLines_shape
                (removelast (Js.split 10 (buffer ++ text))) Hl) as Hp.
  destruct (processLines JSON_parse
              (removelast (Js.split 10 (buffer ++ text))) s calls)
    as [[[|] s1] calls1]; [exact Hp|]. now apply IH.
Qed.

Lemma catchBlock_shape e s calls :
  live s calls -> outcomeShape (settle (catchBlock e s calls)).
Proof.
  intros (H1 & H2 & H3 & H4). unfold catchBlock.
  destruct e as [name message|].
  - destruct (Js.eqb name (js "AbortError")); simpl.
    + split; [reflexivity|]. split; [exact H3|]. left. auto.
    + split; [reflexivity|]. split; [exact H3|]. right.
      exists (Js.orElse message (js "Stream failed")).
      split; [destruct message; discriminate|]. rewrite H4. auto.
  - simpl. split; [reflexivity|]. split; [exact H3|]. right.
    exists (js "Unknown stream error").
    split; [discriminate|]. rewrite H4. auto.
Qed.

Lemma freshState_live : live (freshState true) [].
Proof. unfold live, accumulated. simpl. auto. Qed.

(** X7: one [startStream] call on a hook that has no earlier call in
    flight, over payloads that parse to [StreamChunk] objects or not at
    all. Whatever the fetch and the reads do - resolve, reject, abort, end
    or stay pending - the hook is in one of four shapes. In flight:
    streaming, no error. Settled: not streaming, and either silently
    (abort), or after exactly one [onComplete], both without error, or
    after exactly one [onError] with the same non-empty text in [error].
    In every shape [content] is the concatenation of the deltas of
    [chunks], and [onChunk] was called once per kept chunk, in order,
    before any other callback. (A payload of another shape, or a second
    call while this one is in flight, is outside the statement.) *)
Theorem startStream_outcome_shape (net : Network) :
  outcomeShape (startStream JSON_parse net).
Proof.
  destruct net as [|e|ok status [reads|]].
  - exact freshState_live.
  - exact (catchBlock_shape e freshState_live).
  - destruct ok; [|exact (catchBlock_shape _ freshState_live)].
    pose proof (readLoop_shape reads [] freshState_live) as Hr.
    unfold startStream. cbn [negb].
    destruct (readLoop JSON_parse reads [] (freshState true) [])
      as [s c|s c|e s c|b s c].
    + destruct Hr as (H1 & H2 & H3 & H4).
      split; [exact H1|]. split; [exact H3|]. left. auto.
    + destruct (live_completed Hr) as (H1 & H2 & H3 & H4).
      split; [exact H1|]. split; [exact H3|]. left. auto.
    + now apply catchBlock_shape.
    + exact Hr.
  - destruct ok; exact (catchBlock_shape _ freshState_live).
Qed.

(** X8: blank lines and lines whose payload does not parse have no
    effect at all: processing a list of lines is processing its effective
    lines. *)
Theorem ineffective_lines_are_skipped
  (lines : list str) (s : StreamState.t) (calls : list Callback) :
  processLines JSON_parse lines s calls
  = processLines JSON_parse (filter (effective JSON_parse) lines) s calls.
Proof.
  revert s calls. induction lines as [|line rest IH]; intros s calls;
    [reflexivity|].
  rewrite processLines_cons. cbn [filter]. unfold effective at 1, payload.
  destruct (Js.eqb (Js.trim line) []) eqn:Hblank; cbn [negb andb]; [apply IH|].
  cbv zeta.
  destruct (Js.startsWith (js "data: ") line) eqn:Hdata.
  - destruct (Js.eqb (skipn 6 line) (js "[DONE]")) eqn:Hdone; cbn [andb orb].
    + rewrite processLines_cons, Hblank. cbv zeta.
      now rewrite Hdata, Hdone.
    + destruct (JSON_parse (skipn 6 line)) as [data|] eqn:Hp; [|apply IH].
      rewrite processLines_cons, Hblank. cbv zeta.
      rewrite Hdata, Hdone, Hp.
      destruct (isDone data); [reflexivity | apply IH].
  - cbn [andb orb].
    destruct (JSON_parse line) as [data|] eqn:Hp; [|apply IH].
    rewrite processLines_cons, Hblank. cbv zeta. rewrite Hdata, Hp.
    destruct (isDone data); [reflexivity | apply IH].
Qed.

End NetworkShape.

Section NetworkFraming.
Import ChatEvents StreamSSE StreamControl NetworkInvariants.

Variable JSON_parse : str -> option StreamChunk.t.

(** Splitting a text that arrives in two parts: the complete lines of the
    first part, then the split of its unfinished line followed by the
    second part. *)
Lemma split_app sep (a b : str) :
  Js.split sep (a ++ b)
  = removelast (Js.split sep a) ++ Js.split sep (last (Js.split sep a) [] ++ b).
Proof.
  induction a as [|c r IH]; [reflexivity|].
  pose proof (split_nonempty sep r) as Hne.
  change ((c :: r) ++ b) with (c :: (r ++ b)).
  cbn [Js.split]. destruct (N.eqb c sep) eqn:Hc.
  - rewrite IH. destruct (Js.split sep r) as [|w ws]; [congruence|].
    reflexivity.
  - rewrite IH. destruct (Js.split sep r) as [|w [|w1 ws]]; [congruence| |].
    + cbn [removelast last app].
      change ((c :: w) ++ b) with (c :: (w ++ b)).
      cbn [Js.split]. now rewrite Hc.
    + reflexivity.
Qed.

Lemma last_split_no_sep sep (s : str) : ~ In sep (last (Js.split sep s) []).
Proof.
  induction s as [|c r IH]; [intros []|].
  pose proof (split_nonempty sep r) as Hne.
  cbn [Js.split]. destruct (N.eqb_spec c sep) as [->|Hc].
  - destruct (Js.split sep r) as [|w ws]; [congruence|]. exact IH.
  - destruct (Js.split sep r) as [|w [|w1 ws]]; [congruence| |].
    + cbn [last] in *. intros [H|H]; [congruence | now apply IH].
    + exact IH.
Qed.

Lemma split_no_sep sep (s : str) : ~ In sep s -> Js.split sep s = [s].
Proof.
  induction s as [|c r IH]; [reflexivity|]. intros Hin.
  cbn [Js.split]. destruct (N.eqb_spec c sep) as [->|Hc].
  - exfalso. apply Hin. now left.
  - rewrite IH; [reflexivity|]. intros H. apply Hin. now right.
Qed.

Lemma processLines_app lines1 lines2 : forall s calls,
  processLines JSON_parse (lines1 ++ lines2) s calls
  = match processLines JSON_parse lines1 s calls with
    | (true, s1, calls1) => (true, s1, calls1)
    | (false, s1, calls1) => processLines JSON_parse lines2 s1 calls1
    end.
Proof.
  induction lines1 as [|line rest IH]; intros s calls; [reflexivity|].
  change ((line :: rest) ++ lines2) with (line :: (rest ++ lines2)).
  rewrite !processLines_cons.
  destruct (Js.eqb (Js.trim line) []); [apply IH|]. cbv zeta.
  assert (Hparsed : forall parsed,
    match parsed with
    | Some data =>
        if isDone data
        then (true, setIsStreaming false (pushChunk data s),
              (calls ++ [onChunk data]) ++ [onComplete])
        else processLines JSON_parse (rest ++ lines2) (pushChunk data s)
               (calls ++ [onChunk data])
    | None => processLines JSON_parse (rest ++ lines2) s calls
    end
    = match
        match parsed with
        | Some data =>
            if isDone data
            then (true, setIsStreaming false (pushChunk data s),
                  (calls ++ [onChunk data]) ++ [onComplete])
            else processLines JSON_parse rest (pushChunk data s)
                   (calls ++ [onChunk data])
        | None => processLines JSON_parse rest s calls
        end
      with
      | (true, s1, calls1) => (true, s1, calls1)
      | (false, s1, calls1) => processLines JSON_parse lines2 s1 calls1
      end).
  { intros [data|]; [|apply IH]. destruct (isDone data); [reflexivity|apply IH]. }
  destruct (Js.startsWith (js "data: ") line); [|apply Hparsed].
  destruct (Js.eqb (skipn 6 line) (js "[DONE]")); [reflexivity|apply Hparsed].
Qed.

(** The read loop over texts that arrive and then end, started with an
    unfinished line in the buffer. *)
Lemma readLoop_texts texts : forall buffer s calls,
  ~ In 10%N buffer ->
  readLoop JSON_parse (map ReadValue texts ++ [ReadDone]) buffer s calls
  = match processLines JSON_parse (completeLines (buffer ++ concat texts))
            s calls with
    | (true, s1, calls1) => Returned s1 calls1
    | (false, s1, calls1) => Broke s1 calls1
    end.
Proof.
  induction texts as [|text rest IH]; intros buffer s calls Hbuf.
  - simpl. unfold completeLines. rewrite app_nil_r.
    now rewrite (split_no_sep _ _ Hbuf).
  - change (map ReadValue (text :: rest) ++ [ReadDone])
      with (ReadValue text :: (map ReadValue rest ++ [ReadDone])).
    cbn [readLoop concat]. unfold completeLines.
    rewrite app_assoc, (split_app 10 (buffer ++ text) (concat rest)).
    rewrite removelast_app by apply split_nonempty.
    rewrite processLines_app.
    destruct (processLines JSON_parse
                (removelast (Js.split 10 (buffer ++ text))) s calls)
      as [[[|] s1] calls1]; [reflexivity|].
    assert (Hor : forall x : str, Js.orElse x [] = x) by (now intros []).
    rewrite Hor. apply IH, last_split_no_sep.
Qed.

(** X9: a response body that is delivered in pieces and then ends is
    handled as if it had arrived whole: two deliveries of the same text
    have the same outcome, which is the outcome of processing the lines
    that end in a newline, in order. Text behind the last newline is never
    handed to the parser. *)
Theorem framing_does_not_matter (status : Z) (texts texts' : list str) :
  concat texts = concat texts' ->
  startStream JSON_parse (delivered status texts)
  = bodyOutcome JSON_parse (concat texts)
  /\ startStream JSON_parse (delivered status texts)
     = startStream JSON_parse (delivered status texts').
Proof.
  assert (H : forall l,
    startStream JSON_parse (delivered status l)
    = bodyOutcome JSON_parse (concat l)).
  { intros l. unfold startStream, delivered, bodyOutcome. cbn [negb].
    rewrite readLoop_texts by (intros []).
    cbn [app].
    destruct (processLines JSON_parse (completeLines (concat l))
                (freshState true) []) as [[[|] s1] calls1]; reflexivity. }
  intros Heq. split; [apply H|]. now rewrite !H, Heq.
Qed.

End NetworkFraming.

Section NetworkFramingExample.
Import ChatEvents StreamSSE StreamControl NetworkInvariants.

(** X9 for a frame cut in the middle and followed by text without a final
    newline, against the same text in one piece: the frame is handled, the
    unfinished text is not. *)
Lemma framing_does_not_matter_witness :
  startStream Examples.C6_parse
    (delivered 200%Z
       [ js "data: "; Examples.C6_frame; [10%N] ++ js "data: {" ])
  = startStream Examples.C6_parse
      (delivered 200%Z
         [ js "data: " ++ Examples.C6_frame ++ [10%N] ++ js "data: {" ])
  /\ startStream Examples.C6_parse
       (delivered 200%Z
          [ js "data: " ++ Examples.C6_frame ++ [10%N] ++ js "data: {" ])
     = Settled (setIsStreaming false Examples.C6_inflight)
         (Examples.C6_calls ++ [onComplete]).
Proof.
  split.
  - refine (proj2 (@framing_does_not_matter Examples.C6_parse 200%Z
                     [ js "data: "; Examples.C6_frame; [10%N] ++ js "data: {" ]
                     [ js "data: " ++ Examples.C6_frame ++ [10%N]
                       ++ js "data: {" ] _)).
    vm_compute. reflexivity.
  - vm_compute. reflexivity.
Defined.

End NetworkFramingExample.

(* ------------------------------------------------------------------ *)
(** ** Titles: what every title looks like *)

Section TitleShape.
Import ChatService ServiceInvariants.

Lemma collapseFrom_plain s : forall b, plainSpaces (Js.collapseFrom b s).
Proof.
  unfold plainSpaces.
  induction s as [|c r IH]; intros b; simpl; [constructor|].
  destruct (Js.isWhite c) eqn:Hc; [destruct b|]; auto.
  constructor; [congruence | apply IH].
Qed.

Lemma collapseFrom_noDouble s : forall b,
  noDoubleSpace (Js.collapseFrom b s) = true
  /\ (b = true -> hd 0%N (Js.collapseFrom b s) <> 32%N).
Proof.
  induction s as [|c r IH]; intros b;
    [simpl; split; [reflexivity|discriminate]|].
  cbn [Js.collapseFrom].
  destruct (Js.isWhite c) eqn:Hc.
  - destruct (IH true) as [Hn Hh]. destruct b; [now split|].
    split; [|discriminate].
    specialize (Hh eq_refl).
    destruct (Js.collapseFrom true r) as [|d rest]; [reflexivity|].
    cbn [noDoubleSpace hd] in *.
    rewrite Hn. destruct (N.eqb_spec d 32); [congruence|].
    now rewrite andb_false_r.
  - destruct (IH false) as [Hn _].
    assert (Hc32 : N.eqb c 32 = false).
    { destruct (N.eqb_spec c 32) as [->|]; [|reflexivity]. discriminate Hc. }
    split.
    + destruct (Js.collapseFrom false r) as [|d rest]; [reflexivity|].
      cbn [noDoubleSpace] in *. now rewrite Hc32, Hn.
    + intros _. cbn [hd]. intros ->. discriminate.
Qed.

Lemma collapseFrom_head s b :
  s <> [] -> Js.isWhite (hd 0%N s) = false ->
  hd 0%N (Js.collapseFrom b s) = hd 0%N s.
Proof.
  destruct s as [|c r]; [congruence|]. intros _ Hc.
  cbn [hd Js.collapseFrom] in *. now rewrite Hc.
Qed.

Lemma last_cons_nonempty {A} (x : A) l d : l <> [] -> last (x :: l) d = last l d.
Proof. destruct l; [congruence | reflexivity]. Qed.

Lemma collapseFrom_last s : forall b,
  s <> [] -> Js.isWhite (last s 0%N) = false ->
  Js.collapseFrom b s <> []
  /\ last (Js.collapseFrom b s) 0%N = last s 0%N.
Proof.
  induction s as [|c r IH]; intros b Hne Hl; [congruence|].
  destruct r as [|d r'] eqn:Er.
  - cbn [last] in Hl. cbn [Js.collapseFrom]. rewrite Hl.
    split; [discriminate | reflexivity].
  - rewrite <- Er in *.
    assert (Hr : r <> []) by (rewrite Er; discriminate).
    rewrite last_cons_nonempty in Hl |- * by exact Hr.
    cbn [Js.collapseFrom].
    destruct (Js.isWhite c); [destruct b|].
    + now apply IH.
    + destruct (IH true Hr Hl) as [H1 H2].
      split; [discriminate|]. now rewrite last_cons_nonempty.
    + destruct (IH false Hr Hl) as [H1 H2].
      split; [discriminate|]. now rewrite last_cons_nonempty.
Qed.

Lemma trimStart_head s :
  Js.trimStart s = [] \/ Js.isWhite (hd 0%N (Js.trimStart s)) = false.
Proof.
  induction s as [|c r IH]; [now left|].
  cbn [Js.trimStart]. destruct (Js.isWhite c) eqn:Hc; [exact IH|].
  right. exact Hc.
Qed.

Lemma trimStart_suffix s : exists p, s = p ++ Js.trimStart s.
Proof.
  induction s as [|c r (p & IH)]; [now exists []|].
  cbn [Js.trimStart]. destruct (Js.isWhite c).
  - exists (c :: p). simpl. now rewrite <- IH.
  - now exists [].
Qed.

Lemma hd_rev {A} (l : list A) d : hd d (rev l) = last l d.
Proof.
  induction l as [|x l IH]; [reflexivity|].
  simpl rev. destruct l as [|y l]; [reflexivity|].
  rewrite last_cons_nonempty by discriminate. rewrite <- IH.
  destruct (rev (y :: l)) eqn:E; [|reflexivity].
  apply (f_equal (@length A)) in E. rewrite length_rev in E. discriminate.
Qed.

Lemma last_app_nonempty {A} (p l : list A) d :
  l <> [] -> last (p ++ l) d = last l d.
Proof.
  intros Hl. induction p as [|x p IH]; [reflexivity|].
  simpl app. rewrite last_cons_nonempty; [exact IH|].
  destruct p; simpl; [exact Hl | discriminate].
Qed.

(** A trimmed string is empty or begins and ends with a code unit that is
    no white space. *)
Lemma trim_ends s :
  Js.trim s <> [] ->
  Js.isWhite (hd 0%N (Js.trim s)) = false
  /\ Js.isWhite (last (Js.trim s) 0%N) = false.
Proof.
  unfold Js.trim.
  set (a := Js.trimStart s). set (b := Js.trimStart (rev a)).
  intros Hne.
  assert (Hb : b <> []).
  { intros E. apply Hne. now rewrite E. }
  destruct (trimStart_suffix (rev a)) as (p & Hp). fold b in Hp.
  assert (Ha : a <> []).
  { intros E. rewrite E in Hp. destruct p; [|discriminate].
    simpl in Hp. congruence. }
  split.
  - rewrite hd_rev.
    rewrite <- (@last_app_nonempty _ p b 0%N Hb), <- Hp.
    rewrite <- hd_rev, rev_involutive.
    destruct (trimStart_head s) as [E|H]; [fold a in E; congruence | exact H].
  - rewrite <- hd_rev, rev_involutive.
    destruct (trimStart_head (rev a)) as [E|H];
      [fold b in E; congruence | exact H].
Qed.

(** X10: every title [generateChatTitle] returns is presentable: it is
    not empty, has at most 53 code units, neither begins nor ends with
    white space, and the only white space in it is single spaces - no
    line break, no tab, no two spaces in a row. *)
Theorem every_title_is_presentable (messages : list Message.t) :
  let title := generateChatTitle messages in
  title <> []
  /\ length title <= 53
  /\ plainSpaces title
  /\ noDoubleSpace title = true
  /\ Js.isWhite (hd 0%N title) = false
  /\ Js.isWhite (last title 0%N) = false.
Proof.
  cbv zeta. unfold generateChatTitle.
  assert (Hdefault :
    js "New Chat" <> []
    /\ length (js "New Chat") <= 53
    /\ plainSpaces (js "New Chat")
    /\ noDoubleSpace (js "New Chat") = true
    /\ Js.isWhite (hd 0%N (js "New Chat")) = false
    /\ Js.isWhite (last (js "New Chat") 0%N) = false).
  { split; [discriminate|]. split; [simpl; lia|].
    split; [|repeat split].
    unfold plainSpaces. repeat constructor; try discriminate. }
  destruct (find _ messages) as [m|]; [|exact Hdefault].
  set (T := Js.trim (Js.slice0 50 (Message.content m))).
  set (X := if 50 <? length (Message.content m) then T ++ js "..." else T).
  assert (HT : length T <= 50).
  { unfold T. etransitivity; [apply trim_length|].
    apply firstn_le_length. }
  assert (HX : length X <= 53).
  { unfold X. destruct (50 <? length (Message.content m)); [|lia].
    rewrite length_app. change (length (js "...")) with 3. lia. }
  unfold Js.collapseWhite.
  destruct (Js.collapseFrom false X) as [|y Y] eqn:HY; [exact Hdefault|].
  cbn [Js.orElse]. rewrite <- HY.
  split; [rewrite HY; discriminate|].
  split; [pose proof (collapseFrom_length X false); lia|].
  split; [apply collapseFrom_plain|].
  split; [apply collapseFrom_noDouble|].
  assert (HXne : X <> []).
  { intros E. rewrite E in HY. discriminate. }
  assert (Hends : Js.isWhite (hd 0%N X) = false
                  /\ Js.isWhite (last X 0%N) = false).
  { unfold X in *. destruct T as [|t0 T'] eqn:ET.
    - destruct (50 <? length (Message.content m)); [|congruence].
      split; reflexivity.
    - assert (HTne : Js.trim (Js.slice0 50 (Message.content m)) <> [])
        by (fold T; rewrite ET; discriminate).
      destruct (trim_ends _ HTne) as [Hh Hl]. fold T in Hh, Hl.
      rewrite ET in Hh, Hl.
      destruct (50 <? length (Message.content m)); [|now split].
      split; [exact Hh|].
      rewrite (@last_app_nonempty _ (t0 :: T') (js "...") 0%N)
        by discriminate.
      reflexivity. }
  destruct Hends as [Hh Hl].
  rewrite (@collapseFrom_head X false HXne Hh).
  destruct (@collapseFrom_last X false HXne Hl) as [_ ->].
  now split.
Qed.

End TitleShape.

(* ------------------------------------------------------------------ *)
(** ** Stored sessions: consistency, deleting what was saved *)

Section StoredSessions.
Import ChatService ServiceInvariants.

Lemma title_bounds messages :
  generateChatTitle messages <> [] /\ length (generateChatTitle messages) <= 53.
Proof.
  unfold generateChatTitle.
  destruct (find _ messages) as [m|]; [|split; [discriminate | simpl; lia]].
  set (T := Js.trim (Js.slice0 50 (Message.content m))).
  set (X := if 50 <? length (Message.content m) then T ++ js "..." else T).
  assert (HX : length X <= 53).
  { assert (HT : length T <= 50).
    { unfold T. etransitivity; [apply trim_length | apply firstn_le_length]. }
    unfold X. destruct (50 <? length (Message.content m)); [|lia].
    rewrite length_app. change (length (js "...")) with 3. lia. }
  pose proof (collapseFrom_length X false) as HY. unfold Js.collapseWhite.
  destruct (Js.collapseFrom false X); [split; [discriminate | simpl; lia]|].
  cbn [Js.orElse]. split; [discriminate | lia].
Qed.

Lemma preview_length content : length (preview content) <= 103.
Proof.
  unfold preview, Js.slice0. rewrite length_app.
  pose proof (firstn_le_length 100 content) as H1.
  assert (H2 : length (if 100 <? length content then js "..." else []) <= 3)
    by (destruct (100 <? length content); simpl; lia).
  unfold str in *. lia.
Qed.

Lemma Forall_updateAt {A} (P : A -> Prop) y l : forall i,
  Forall P l -> P y -> Forall P (updateAt i (fun _ => y) l).
Proof.
  induction l as [|x l IH]; intros [|i] Hl Hy; simpl; auto;
    inversion Hl; subst; constructor; auto.
Qed.

Lemma filter_updateAt {A} (keep : A -> bool) y l : forall i x,
  nth_error l i = Some x -> keep x = false -> keep y = false ->
  filter keep (updateAt i (fun _ => y) l) = filter keep l.
Proof.
  induction l as [|z l IH]; intros [|i] x; simpl; try discriminate.
  - intros [= ->] Hx Hy. now rewrite Hx, Hy.
  - intros Hn Hx Hy. now rewrite (IH _ _ Hn Hx Hy).
Qed.

Lemma updatedSession_consistent env m ms old :
  consistent old ->
  consistent (updatedSession env (m :: ms) (last (m :: ms) m) old).
Proof.
  intros (_ & _ & _ & Ht1 & Ht2). unfold consistent, updatedSession.
  cbn [ChatSession.messageCount ChatSession.messages ChatSession.lastMessage
       ChatSession.title].
  rewrite map_id. split; [reflexivity|]. split; [reflexivity|].
  split; [apply preview_length | now split].
Qed.

Lemma newSession_consistent env m ms :
  consistent (newSession env (m :: ms) (last (m :: ms) m)).
Proof.
  unfold consistent, newSession.
  cbn [ChatSession.messageCount ChatSession.messages ChatSession.lastMessage
       ChatSession.title].
  rewrite map_id. split; [reflexivity|]. split; [reflexivity|].
  split; [apply preview_length | apply title_bounds].
Qed.

(** X11: saving keeps the store consistent. If every stored session has
    [messageCount] equal to the number of its messages, a non-empty
    message list, [lastMessage] the preview of its last message (at most
    103 code units) and a non-empty title of at most 53 code units, then
    the same holds after [saveChatSession], whatever it is given; and a
    session it returns holds exactly the saved messages. *)
Theorem saving_keeps_sessions_consistent
  (env : Env.t) (messages : list Message.t) (store : Stored) :
  Forall consistent (getChatSessions store) ->
  let result := saveChatSession env messages store in
  Forall consistent (getChatSessions (fst result))
  /\ forall s, snd result = Ok s ->
               consistent s /\ ChatSession.messages s = messages.
Proof.
  intros Hall result. subst result.
  destruct messages as [|m ms]; [split; [exact Hall | discriminate]|].
  destruct (generateContentHash (m :: ms)) as [h|e] eqn:Hh.
  - destruct (findExisting h (getChatSessions store)) as [[[i old]|]|e] eqn:Hf.
    + rewrite (save_updates env _ _ _ Hh Hf). cbn [fst snd getChatSessions].
      assert (Hold : consistent old).
      { rewrite Forall_forall in Hall. apply Hall.
        eapply nth_error_In, findExisting_nth, Hf. }
      split.
      * apply Forall_updateAt; [exact Hall|].
        now apply updatedSession_consistent.
      * intros s [= <-]. split; [now apply updatedSession_consistent|].
        apply map_id.
    + rewrite (save_creates env _ _ _ Hh Hf). cbn [fst snd getChatSessions].
      split.
      * constructor; [apply newSession_consistent | exact Hall].
      * intros s [= <-]. split; [apply newSession_consistent | apply map_id].
    + rewrite (@save_throws env m ms store e) by (now rewrite Hh).
      split; [exact Hall | discriminate].
  - rewrite (@save_throws env m ms store e) by (now rewrite Hh).
    split; [exact Hall | discriminate].
Qed.

(** X11 at a store that holds one saved session, saving a second
    conversation. *)
Lemma saving_keeps_sessions_consistent_witness :
  Forall consistent
    (getChatSessions
       (fst (saveChatSession Examples.C5_env2 Examples.C5_messages
               (fst (saveChatSession Examples.C5_env1 Examples.C9_first
                       NoItem))))).
Proof.
  refine (proj1 (@saving_keeps_sessions_consistent Examples.C5_env2
                   Examples.C5_messages
                   (fst (saveChatSession Examples.C5_env1 Examples.C9_first
                           NoItem)) _)).
  constructor; [|constructor].
  unfold consistent.
  split; [reflexivity|]. split; [reflexivity|].
  split; [vm_compute; lia|]. split; [discriminate | vm_compute; lia].
Defined.

(** X12: deleting the session that a save returned removes exactly the
    sessions carrying its id: the store then lists the sessions it listed
    before the save, without those with that id. In particular, when no
    stored session had the id before, saving and then deleting restores
    the list. *)
Theorem delete_undoes_save
  (env : Env.t) (messages : list Message.t) (store : Stored)
  (s : ChatSession.t) :
  snd (saveChatSession env messages store) = Ok s ->
  let after :=
    getChatSessions
      (deleteChatSession (ChatSession.id s)
         (fst (saveChatSession env messages store))) in
  after
  = filter (fun x => negb (Js.eqb (ChatSession.id x) (ChatSession.id s)))
      (getChatSessions store)
  /\ (forall x, In x after -> ChatSession.id x <> ChatSession.id s)
  /\ ((forall x, In x (getChatSessions store) ->
                 ChatSession.id x <> ChatSession.id s) ->
      after = getChatSessions store).
Proof.
  intros Hok after.
  assert (Hafter : after
    = filter (fun x => negb (Js.eqb (ChatSession.id x) (ChatSession.id s)))
        (getChatSessions store)).
  { subst after. unfold deleteChatSession. cbn [getChatSessions].
    destruct messages as [|m ms]; [discriminate Hok|].
    destruct (generateContentHash (m :: ms)) as [h|e] eqn:Hh.
    - destruct (findExisting h (getChatSessions store))
        as [[[i old]|]|e] eqn:Hf.
      + rewrite (save_updates env _ _ _ Hh Hf) in Hok |- *.
        cbn [fst snd getChatSessions] in *. injection Hok as <-.
        cbn [updatedSession ChatSession.id].
        apply (@filter_updateAt _ _ _ _ _ _ (findExisting_nth _ _ Hf));
          cbn [ChatSession.id]; now rewrite Js_eqb_refl.
      + rewrite (save_creates env _ _ _ Hh Hf) in Hok |- *.
        cbn [fst snd getChatSessions] in *. injection Hok as <-.
        cbn [filter]. now rewrite Js_eqb_refl.
      + rewrite (@save_throws env m ms store e) in Hok by (now rewrite Hh).
        discriminate Hok.
    - rewrite (@save_throws env m ms store e) in Hok by (now rewrite Hh).
      discriminate Hok. }
  split; [exact Hafter|]. split.
  - intros x Hx. rewrite Hafter in Hx. apply filter_In in Hx as [_ Hx].
    apply negb_true_iff, Js_eqb_neq in Hx. exact Hx.
  - intros Hfresh. rewrite Hafter.
    apply forallb_filter_id. apply forallb_forall. intros x Hx.
    apply negb_true_iff, Js_eqb_neq. now apply Hfresh.
Qed.

(** X12 at the store of the example: the saved conversation is deleted
    again and the older session is all that is left. *)
Lemma delete_undoes_save_witness :
  getChatSessions
    (deleteChatSession (js "k3j9x0q1z")
       (fst (saveChatSession Examples.C5_env1 Examples.C5_messages
               Examples.C5_store)))
  = getChatSessions Examples.C5_store.
Proof.
  destruct (@delete_undoes_save Examples.C5_env1 Examples.C5_messages
              Examples.C5_store
              (newSession Examples.C5_env1 Examples.C5_messages
                 (last Examples.C5_messages
                    (hd (ChatService.Message.mk [] user [] 0%Z)
                       Examples.C5_messages))))
    as (_ & _ & Hfresh).
  - vm_compute. reflexivity.
  - apply Hfresh. intros x [<-|[]]. vm_compute. discriminate.
Defined.

End StoredSessions.

(* ------------------------------------------------------------------ *)
(** ** Shared chats: create and look up *)

Section SharedChats.
Import ChatService ChatSharing ServiceInvariants.

Lemma property_assign_same key data chats :
  property key (assign key data chats) = Some data.
Proof.
  induction chats as [|[k v] rest IH]; simpl.
  - now rewrite Js_eqb_refl.
  - destruct (Js.eqb k key) eqn:E; simpl; now rewrite E.
Qed.

Lemma property_assign_other key other data chats :
  other <> key ->
  property other (assign key data chats) = property other chats.
Proof.
  intros Hne. induction chats as [|[k v] rest IH]; simpl.
  - apply Js_eqb_neq in Hne.
    destruct (Js.eqb key other) eqn:E; [|reflexivity].
    apply Js_eqb_eq in E. apply Js_eqb_neq in Hne. congruence.
  - destruct (Js.eqb k key) eqn:E; simpl.
    + apply Js_eqb_eq in E. subst k.
      destruct (Js.eqb key other) eqn:E2; [|reflexivity].
      apply Js_eqb_eq in E2. congruence.
    + destruct (Js.eqb k other); [reflexivity | exact IH].
Qed.

(** X13: a shared chat can be fetched by the id in its link. After
    [createShareableLink], the link is the origin followed by [/shared/]
    and the share id, [getSharedChat] of that id returns a public snapshot
    with the session's title, messages and timestamp - replacing whatever
    was stored under that id - and every other id resolves as before. *)
Theorem shared_chat_round_trip
  (randomId baseUrl other : str) (session : ChatSession.t)
  (store : SharedStored) :
  other <> randomId ->
  let created := createShareableLink randomId baseUrl session store in
  snd created = baseUrl ++ js "/shared/" ++ randomId
  /\ getSharedChat randomId (fst created) = Some (snapshot randomId session)
  /\ getSharedChat other (fst created) = getSharedChat other store.
Proof.
  intros Hne created. subst created.
  unfold createShareableLink, getSharedChat.
  cbn [fst snd getSharedChats ShareableChatData.id].
  split; [reflexivity|]. split.
  - rewrite property_assign_same. unfold snapshot. cbn. now rewrite map_id.
  - now rewrite property_assign_other.
Qed.

(** X13 for a second share into a store that holds one snapshot. *)
Lemma shared_chat_round_trip_witness :
  let created :=
    createShareableLink (js "zzz999yyy") (js "https://example.org")
      sharedSession sharedBefore in
  snd created = js "https://example.org/shared/zzz999yyy"
  /\ getSharedChat (js "zzz999yyy") (fst created)
     = Some (snapshot (js "zzz999yyy") sharedSession)
  /\ getSharedChat (js "aaa111bbb") (fst created)
     = Some (snapshot (js "aaa111bbb") sharedSession).
Proof.
  destruct (@shared_chat_round_trip (js "zzz999yyy") (js "https://example.org")
              (js "aaa111bbb") sharedSession sharedBefore)
    as (Hurl & Hget & Hother).
  - vm_compute. discriminate.
  - cbv zeta. split; [exact Hurl|]. split; [exact Hget|].
    rewrite Hother. reflexivity.
Defined.

End SharedChats.

(* ------------------------------------------------------------------ *)
(** ** [handleNewChat]: what happens to the chat on screen *)

Section NewChat.
Import ChatService SEFGHApp ServiceInvariants.



(** X15: when the save behind [handleNewChat] updates a stored session
    instead of creating one, the session list in memory - which mirrored
    the store - gets the returned session prepended although the old
    entry is still in it: it lists that id twice and is one longer than
    the store. *)
Theorem new_chat_duplicates_an_updated_session
  (env : Env.t) (messages : list Message.t) (store : Stored)
  (h : str) (i : nat) (old : ChatSession.t) :
  messages <> [] ->
  generateContentHash messages = Ok h ->
  findExisting h (getChatSessions store) = Ok (Some (i, old)) ->
  let result := handleNewChat env (loaded messages store) store in
  length (AppState.chatSessions (fst result))
  = S (length (getChatSessions (snd result)))
  /\ (exists saved rest,
        AppState.chatSessions (fst result) = saved :: rest
        /\ In old rest
        /\ ChatSession.id saved = ChatSession.id old)
  /\ ~ NoDup (map ChatSession.id (AppState.chatSessions (fst result))).
Proof.
  intros Hne Hh Hf result. subst result. unfold handleNewChat, loaded.
  cbn [AppState.messages AppState.chatSessions].
  destruct messages as [|m ms]; [congruence|].
  rewrite (save_updates env _ _ _ Hh Hf).
  cbn [fst snd AppState.chatSessions getChatSessions].
  pose proof (nth_error_In _ _ (findExisting_nth _ _ Hf)) as Hin.
  split; [now rewrite updateAt_length|].
  split.
  - eexists. eexists. split; [reflexivity|]. split; [exact Hin | reflexivity].
  - intros Hnd. cbn [map] in Hnd. inversion Hnd as [|x l Hnotin _]; subst.
    apply Hnotin. cbn [updatedSession ChatSession.id].
    now apply in_map.
Qed.

(** X15 for the second conversation of the collision example. *)
Lemma new_chat_duplicates_witness :
  map ChatSession.id
    (AppState.chatSessions
       (fst (handleNewChat (Env.mk (js "p0o9i8u7y") 30%Z)
               (loaded collidingMessages collidingStore) collidingStore)))
  = [js "k3j9x0q1z"; js "k3j9x0q1z"].
Proof.
  destruct (@new_chat_duplicates_an_updated_session
              (Env.mk (js "p0o9i8u7y") 30%Z) collidingMessages collidingStore
              (js "dXNlcjpoZWxsbyB3") 0
              (newSession (Env.mk (js "k3j9x0q1z") 20%Z)
                 [ Message.mk (js "user-1") user (js "hello world one") 1%Z ]
                 (Message.mk (js "user-1") user (js "hello world one") 1%Z)))
    as (_ & (saved & rest & Hs & _ & _) & _).
  - discriminate.
  - vm_compute. reflexivity.
  - vm_compute. reflexivity.
  - vm_compute. reflexivity.
Defined.

End NewChat.

(* ------------------------------------------------------------------ *)
(** ** The incremental renderer in use *)

Section RendererInvariants.
Import TypingAnimation IncrementalRun TypingInvariants.

Lemma clearTimeout_own handle delay :
  clearTimeout handle [(handle, delay)] = [].
Proof. unfold clearTimeout. simpl. now rewrite Nat.eqb_refl. Qed.

(** Clearing the handle in [timeoutRef] disarms every timer. *)
Lemma oneTimer_cleared h :
  oneTimer h ->
  match Incremental.timeoutRef h with
  | Some handle => clearTimeout handle (Incremental.timers h)
  | None => Incremental.timers h
  end = [].
Proof.
  intros [Hnil | (handle & delay & Ht & Hr)].
  - rewrite Hnil. now destruct (Incremental.timeoutRef h).
  - rewrite Hr, Ht. apply clearTimeout_own.
Qed.

Lemma sound_initial : sound initial.
Proof.
  unfold sound, oneTimer, showsPrefix, catchesUp. simpl.
  split; [now left|]. split; [now exists []|]. split; [now left|].
  split; [discriminate | congruence].
Qed.

Lemma sound_shown h buffer timeoutRef lastUpdate :
  sound h ->
  oneTimer (Incremental.mk buffer (Incremental.isTyping h) buffer timeoutRef
              lastUpdate (Incremental.timers h) (Incremental.nextHandle h)) ->
  sound (Incremental.mk buffer (Incremental.isTyping h) buffer timeoutRef
           lastUpdate (Incremental.timers h) (Incremental.nextHandle h)).
Proof.
  intros (_ & _ & _ & Hty) Hone. unfold sound, showsPrefix, catchesUp. simpl.
  split; [exact Hone|]. split; [exists []; now rewrite app_nil_r|].
  split; [now left | exact Hty].
Qed.

Lemma sound_step h e : sound h -> sound (step h e).
Proof.
  intros Hs. pose proof Hs as (Hone & (rest & Hpre) & Hcatch & Hty).
  destruct e as [enabled prm speed now newText|handle now| |];
    cbn [step].
  - (* appendText *)
    unfold appendText.
    assert (Hsched : forall d,
      sound (Incremental.mk (Incremental.displayedText h) true
               (Incremental.bufferRef h ++ newText)
               (Some (Incremental.nextHandle h))
               (Incremental.lastUpdateRef h)
               (match Incremental.timeoutRef h with
                | Some handle => clearTimeout handle (Incremental.timers h)
                | None => Incremental.timers h
                end ++ [(Incremental.nextHandle h, d)])
               (S (Incremental.nextHandle h)))).
    { intros d. rewrite (oneTimer_cleared Hone).
      unfold sound, oneTimer, showsPrefix, catchesUp. cbn.
      split; [right; eauto|].
      split; [exists (rest ++ newText); now rewrite Hpre, app_assoc|].
      split.
      - right. exists (Incremental.nextHandle h), d. split; [reflexivity|].
        intros now'. unfold timerFires. cbn. now rewrite Nat.eqb_refl.
      - split; [discriminate | reflexivity]. }
    destruct (negb enabled || prm).
    + apply sound_shown; [exact Hs | exact Hone].
    + cbv zeta. destruct (minInterval speed) as [mi|]; [|apply Hsched].
      destruct (Qle_bool mi _); [|apply Hsched].
      apply sound_shown; [exact Hs | exact Hone].
  - (* the timer fires *)
    unfold timerFires.
    destruct (existsb _ (Incremental.timers h)) eqn:Hex; [|exact Hs].
    destruct Hone as [Hnil | (handle0 & delay & Ht & Hr)].
    + rewrite Hnil in Hex. discriminate.
    + rewrite Ht in Hex |- *. simpl in Hex. rewrite orb_false_r in Hex.
      apply Nat.eqb_eq in Hex. subst handle0.
      rewrite clearTimeout_own.
      unfold sound, oneTimer, showsPrefix, catchesUp. cbn.
      split; [now left|]. split; [exists []; now rewrite app_nil_r|].
      split; [now left|]. split; [discriminate | congruence].
  - (* reset *)
    unfold reset. rewrite (oneTimer_cleared Hone).
    unfold sound, oneTimer, showsPrefix, catchesUp. cbn.
    split; [now left|]. split; [now exists []|].
    split; [now left|]. split; [discriminate | congruence].
  - (* flush *)
    unfold flush. rewrite (oneTimer_cleared Hone).
    unfold sound, oneTimer, showsPrefix, catchesUp. cbn.
    split; [now left|]. split; [exists []; now rewrite app_nil_r|].
    split; [now left|]. split; [discriminate | congruence].
Qed.

Lemma sound_run events : sound (run events).
Proof.
  unfold run.
  assert (H : forall h, sound h -> sound (fold_left step events h)).
  { induction events as [|e rest IH]; intros h Hh; [exact Hh|].
    simpl. apply IH. now apply sound_step. }
  apply H, sound_initial.
Qed.

Lemma appended_app events1 events2 : forall acc,
  appended (events1 ++ events2) acc = appended events2 (appended events1 acc).
Proof.
  induction events1 as [|e rest IH]; intros acc; [reflexivity|].
  destruct e; simpl; apply IH.
Qed.

Lemma run_snoc events e : run (events ++ [e]) = step (run events) e.
Proof. unfold run. now rewrite fold_left_app. Qed.

(** X16: the incremental renderer, after any sequence of [appendText]
    calls (in any mode and at any speed and time), timer callbacks,
    [reset] and [flush]. At most one timer is armed and [timeoutRef] holds
    its handle; [isTyping] is true exactly while a timer is armed; the
    buffer is the text appended since the last [reset]; the visible text
    is a beginning of the buffer; and whenever it is not the whole buffer,
    the armed timer's callback shows the whole buffer. No appended text is
    lost. *)
Theorem renderer_loses_no_text (events : list Event) :
  let h := run events in
  oneTimer h
  /\ (Incremental.isTyping h = true <-> Incremental.timers h <> [])
  /\ Incremental.bufferRef h = appended events []
  /\ showsPrefix h
  /\ catchesUp h.
Proof.
  cbv zeta. destruct (sound_run events) as (H1 & H2 & H3 & H4).
  split; [exact H1|]. split; [exact H4|]. split; [|now split].
  clear. induction events as [|e rest IH] using rev_ind; [reflexivity|].
  rewrite run_snoc, appended_app, <- IH.
  destruct e as [enabled prm speed now newText|handle now| |]; cbn [step appended].
  - unfold appendText. destruct (negb enabled || prm); [reflexivity|].
    cbv zeta. destruct (minInterval speed) as [mi|]; [|reflexivity].
    now destruct (Qle_bool mi _).
  - unfold timerFires. now destruct (existsb _ _).
  - reflexivity.
  - reflexivity.
Qed.

(** X17: [flush] and [reset] leave nothing pending. In every state the
    renderer can reach, after [flush] the visible text is the whole
    buffer, and after [reset] both are empty; in both cases no timer is
    armed any more, no handle is kept and [isTyping] is false - so no
    late callback can change the text afterwards. *)
Theorem flush_and_reset_leave_nothing_pending
  (events : list Event) (handle : nat) (now : Z) :
  let h := run events in
  Incremental.displayedText (flush h) = Incremental.bufferRef h
  /\ Incremental.bufferRef (flush h) = Incremental.bufferRef h
  /\ Incremental.timers (flush h) = []
  /\ timerFires handle now (flush h) = flush h
  /\ Incremental.displayedText (reset h) = []
  /\ Incremental.bufferRef (reset h) = []
  /\ Incremental.timers (reset h) = []
  /\ timerFires handle now (reset h) = reset h.
Proof.
  cbv zeta. destruct (sound_run events) as (Hone & _).
  pose proof (oneTimer_cleared Hone) as Hclear.
  assert (Hf : Incremental.timers (flush (run events)) = [])
    by (unfold flush; cbn; exact Hclear).
  assert (Hr : Incremental.timers (reset (run events)) = [])
    by (unfold reset; cbn; exact Hclear).
  repeat split; try assumption.
  - unfold timerFires. now rewrite Hf.
  - unfold timerFires. now rewrite Hr.
Qed.

End RendererInvariants.

(* ------------------------------------------------------------------ *)
(** ** The content hash: exactly what it distinguishes *)

Section HashKey.
Import ChatService ServiceInvariants.

Lemma below_forall (p : N -> bool) n :
  forallb p (below n) = true ->
  forall x, (x < N.of_nat n)%N -> p x = true.
Proof.
  intros H x Hx. rewrite forallb_forall in H. apply H.
  unfold below. apply in_map_iff. exists (N.to_nat x).
  split; [apply N2Nat.id | apply in_seq; lia].
Qed.

Lemma base64Index_digit i :
  (i < 64)%N -> base64Index (base64Digit i) = i.
Proof.
  intros Hi.
  apply N.eqb_eq.
  apply (@below_forall (fun i => N.eqb (base64Index (base64Digit i)) i) 64);
    [vm_compute; reflexivity | exact Hi].
Qed.

Lemma checkFirst_all a b :
  (a <= 255)%N -> (b <= 255)%N -> checkFirst a b = true.
Proof.
  intros Ha Hb.
  assert (H : forallb (fun a => forallb (checkFirst a) (below 256)) (below 256)
              = true) by (vm_compute; reflexivity).
  assert (Ha' : (a < N.of_nat 256)%N) by lia.
  assert (Hb' : (b < N.of_nat 256)%N) by lia.
  pose proof (@below_forall _ 256 H a Ha') as H1. cbv beta in H1.
  exact (@below_forall _ 256 H1 b Hb').
Qed.

Lemma checkLast_all b c :
  (b <= 255)%N -> (c <= 255)%N -> checkLast b c = true.
Proof.
  intros Hb Hc.
  assert (H : forallb (fun b => forallb (checkLast b) (below 256)) (below 256)
              = true) by (vm_compute; reflexivity).
  assert (Hb' : (b < N.of_nat 256)%N) by lia.
  assert (Hc' : (c < N.of_nat 256)%N) by lia.
  pose proof (@below_forall _ 256 H b Hb') as H1. cbv beta in H1.
  exact (@below_forall _ 256 H1 c Hc').
Qed.

(** Three bytes can be read back from their four digits. *)
Lemma base64_group_inj a b c a' b' c' :
  (a <= 255)%N -> (b <= 255)%N -> (c <= 255)%N ->
  (a' <= 255)%N -> (b' <= 255)%N -> (c' <= 255)%N ->
  base64 [a; b; c] = base64 [a'; b'; c'] ->
  a = a' /\ b = b' /\ c = c'.
Proof.
  intros Ha Hb Hc Ha' Hb' Hc' Heq.
  cbn [base64] in Heq. injection Heq as E1 E2 E3 E4.
  pose proof (checkFirst_all Ha Hb) as F. pose proof (checkFirst_all Ha' Hb') as F'.
  pose proof (checkLast_all Hb Hc) as L. pose proof (checkLast_all Hb' Hc') as L'.
  unfold checkFirst in F, F'. unfold checkLast in L, L'. cbv zeta in *.
  repeat (apply andb_true_iff in F as [F ?]).
  repeat (apply andb_true_iff in F' as [F' ?]).
  repeat (apply andb_true_iff in L as [L ?]).
  repeat (apply andb_true_iff in L' as [L' ?]).
  repeat match goal with
         | H : (_ <? _)%N = true |- _ => apply N.ltb_lt in H
         | H : (_ =? _)%N = true |- _ => apply N.eqb_eq in H
         end.
  apply (f_equal base64Index) in E1, E2, E3, E4.
  rewrite !base64Index_digit in E1, E2, E3, E4 by assumption.
  change (N.shiftr a 2 = N.shiftr a' 2) in E1.
  change (N.lor (N.shiftl (N.land a 3) 4) (N.shiftr b 4)
          = N.lor (N.shiftl (N.land a' 3) 4) (N.shiftr b' 4)) in E2.
  change (N.lor (N.shiftl (N.land b 15) 2) (N.shiftr c 6)
          = N.lor (N.shiftl (N.land b' 15) 2) (N.shiftr c' 6)) in E3.
  repeat split; congruence.
Qed.

Lemma isLatin1_cons c s :
  isLatin1 (c :: s) = true <-> (c <= 255)%N /\ isLatin1 s = true.
Proof.
  unfold isLatin1. simpl. rewrite andb_true_iff, N.leb_le. tauto.
Qed.

(** Twelve bytes can be read back from their sixteen digits. *)
Lemma base64_12_inj p q :
  length p = 12 -> length q = 12 ->
  isLatin1 p = true -> isLatin1 q = true ->
  base64 p = base64 q -> p = q.
Proof.
  intros Hp Hq Lp Lq Heq.
  do 12 (destruct p as [|? p]; [discriminate Hp|]).
  destruct p; [|discriminate Hp].
  do 12 (destruct q as [|? q]; [discriminate Hq|]).
  destruct q; [|discriminate Hq].
  clear Hp Hq.
  repeat (apply isLatin1_cons in Lp as [? Lp]).
  repeat (apply isLatin1_cons in Lq as [? Lq]).
  cbn [base64] in Heq.
  injection Heq as E1 E2 E3 E4 E5 E6 E7 E8 E9 E10 E11 E12 E13 E14 E15 E16.
  assert (G : forall a b c a' b' c',
    (a <= 255)%N -> (b <= 255)%N -> (c <= 255)%N ->
    (a' <= 255)%N -> (b' <= 255)%N -> (c' <= 255)%N ->
    base64Digit (N.shiftr a 2) = base64Digit (N.shiftr a' 2) ->
    base64Digit (N.lor (N.shiftl (N.land a 3) 4) (N.shiftr b 4))
    = base64Digit (N.lor (N.shiftl (N.land a' 3) 4) (N.shiftr b' 4)) ->
    base64Digit (N.lor (N.shiftl (N.land b 15) 2) (N.shiftr c 6))
    = base64Digit (N.lor (N.shiftl (N.land b' 15) 2) (N.shiftr c' 6)) ->
    base64Digit (N.land c 63) = base64Digit (N.land c' 63) ->
    a = a' /\ b = b' /\ c = c').
  { intros a b c a' b' c' Ha Hb Hc Ha' Hb' Hc' D1 D2 D3 D4.
    apply base64_group_inj; try assumption.
    cbn [base64]. now rewrite D1, D2, D3, D4. }
  destruct (G _ _ _ _ _ _ H H0 H1 H11 H12 H13 E1 E2 E3 E4) as (-> & -> & ->).
  destruct (G _ _ _ _ _ _ H2 H3 H4 H14 H15 H16 E5 E6 E7 E8) as (-> & -> & ->).
  destruct (G _ _ _ _ _ _ H5 H6 H7 H17 H18 H19 E9 E10 E11 E12) as (-> & -> & ->).
  destruct (G _ _ _ _ _ _ H8 H9 H10 H20 H21 H22 E13 E14 E15 E16)
    as (-> & -> & ->).
  reflexivity.
Qed.

Lemma isLatin1_firstn n s : isLatin1 s = true -> isLatin1 (firstn n s) = true.
Proof.
  unfold isLatin1. rewrite !forallb_forall. intros H x Hx. apply H.
  rewrite <- (firstn_skipn n s). apply in_or_app. now left.
Qed.

(** X18: what the de-duplication key is. For two message lists whose
    serialized text is Latin-1 and at least twelve code units long, the
    content hashes are equal exactly when the first twelve code units of
    the serialized texts are equal: later text never matters, and any
    difference within the first twelve always does. *)
Theorem content_hash_is_the_first_12_code_units (a b : list Message.t) :
  isLatin1 (serialize a) = true ->
  isLatin1 (serialize b) = true ->
  12 <= length (serialize a) ->
  12 <= length (serialize b) ->
  generateContentHash a = generateContentHash b
  <-> firstn 12 (serialize a) = firstn 12 (serialize b).
Proof.
  intros La Lb Ha Hb.
  rewrite !generateContentHash_latin1 by assumption.
  rewrite !base64_first_16 by assumption.
  split.
  - intros [= Heq]. apply base64_12_inj; try exact Heq.
    + rewrite length_firstn. unfold str in *. lia.
    + rewrite length_firstn. unfold str in *. lia.
    + now apply isLatin1_firstn.
    + now apply isLatin1_firstn.
  - now intros ->.
Qed.

(** X18 for the two lists of the collision example. *)
Lemma content_hash_witness :
  generateContentHash Examples.C9_first = generateContentHash Examples.C9_second.
Proof.
  apply content_hash_is_the_first_12_code_units;
    try (vm_compute; reflexivity); vm_compute; lia.
Defined.

End HashKey.

(* ------------------------------------------------------------------ *)
(** ** The history panel: how a session's date is labelled *)

Section DateLabels.
Import EnhancedChatPanel.

(** X19: for two valid dates whose time values differ by at most 2^53
    milliseconds (some 285,000 years), [formatDate] counts whole periods
    of 24 hours between the two instants, not calendar days. The label is
    [Today] exactly when the date lies less than 24 hours in the past,
    [Yesterday] exactly from 24 up to 48 hours, the locale date exactly
    from 7 days on, and a number of days in between; a date in the future
    is never [Today] but labelled with a negative number of days. An
    Invalid Date gets the locale date. *)
Theorem formatDate_counts_periods_of_24_hours (now date : Z) :
  (Z.abs now <= maxTime)%Z ->
  (Z.abs date <= maxTime)%Z ->
  (Z.abs (now - date) <= exactBound)%Z ->
  let day := 86400000%Z in
  let diff := (now - date)%Z in
  (formatDate now (Some date) = Today <-> (0 <= diff < day)%Z)
  /\ (formatDate now (Some date) = Yesterday <-> (day <= diff < 2 * day)%Z)
  /\ (formatDate now (Some date) = LocaleDate <-> (7 * day <= diff)%Z)
  /\ (forall n, formatDate now (Some date) = DaysAgo n <->
                (n = diff / day /\ (n < 0 \/ 2 <= n < 7))%Z)
  /\ ((diff < 0)%Z -> formatDate now (Some date) = DaysAgo (diff / day)
                      /\ (diff / day < 0)%Z)
  /\ formatDate now None = LocaleDate.
Proof.
  intros _ _ _. cbv zeta. unfold formatDate.
  change (1000 * 60 * 60 * 24)%Z with 86400000%Z.
  pose proof (Z.div_mod (now - date) 86400000 ltac:(lia)) as Hdm.
  pose proof (Z.mod_pos_bound (now - date) 86400000 ltac:(lia)) as Hmod.
  set (q := ((now - date) / 86400000)%Z) in *.
  set (r := ((now - date) mod 86400000)%Z) in *.
  destruct (Z.eqb_spec q 0) as [H0|H0];
    [|destruct (Z.eqb_spec q 1) as [H1|H1];
      [|destruct (Z.ltb_spec q 7) as [H7|H7]]];
    repeat split; intros; try discriminate; try lia;
    try (match goal with
         | H : DaysAgo _ = DaysAgo _ |- _ => injection H as <-; lia
         end);
    try (match goal with
         | H : _ = _ /\ _ |- _ => destruct H as [-> _]; reflexivity
         end).
Qed.

(** X19 for a session saved 23 hours and 59 minutes ago, and one saved a
    minute in the future. *)
Lemma formatDate_witness :
  formatDate 1700000000000%Z (Some 1699913660000%Z) = Today
  /\ formatDate 1700000000000%Z (Some 1700000060000%Z) = DaysAgo (-1).
Proof.
  split.
  - apply (proj1 (@formatDate_counts_periods_of_24_hours 1700000000000%Z
                    1699913660000%Z ltac:(vm_compute; discriminate)
                    ltac:(vm_compute; discriminate)
                    ltac:(vm_compute; discriminate))).
    lia.
  - apply (proj1 (proj2 (proj2 (proj2 (proj2
             (@formatDate_counts_periods_of_24_hours 1700000000000%Z
                1700000060000%Z ltac:(vm_compute; discriminate)
                ltac:(vm_compute; discriminate)
                ltac:(vm_compute; discriminate)))))) ltac:(lia)).
Defined.

End DateLabels.

(* ------------------------------------------------------------------ *)
(** ** Saving text outside Latin-1 *)

Section SessionDefect.
Import ChatService ServiceInvariants.

(** C5: the claim asks that every non-empty message list, saved twice,
    ends up in one stored session that the second save updates in place.
    The code misses the lists that hold a code unit above 255. For the
    conversation [a -> b] written with a right arrow (U+2192), into any
    store and with any ids and clock readings, both [saveChatSession]
    calls throw [InvalidCharacterError] from [btoa] inside
    [generateContentHash], before the only [setItem]: no session is
    returned, and the store after each call is the store before it, so it
    holds no session for the conversation. *)
Theorem C5_save_outside_latin1_throws
  (env1 env2 : Env.t) (store : Stored) :
  let first := saveChatSession env1 arrowMessages store in
  let second := saveChatSession env2 arrowMessages (fst first) in
  arrowMessages <> []
  /\ first = (store, Throw InvalidCharacterError)
  /\ second = (store, Throw InvalidCharacterError)
  /\ getChatSessions (fst second) = getChatSessions store.
Proof.
  cbv zeta.
  assert (H : forall env st,
    saveChatSession env arrowMessages st = (st, Throw InvalidCharacterError)).
  { intros env st. apply save_throws. reflexivity. }
  split; [discriminate|].
  rewrite (H env1 store). cbn [fst]. rewrite (H env2 store).
  repeat split.
Qed.

End SessionDefect.
